(** * pc.CurveIterator (src/math/curve-iterator.js)

    A shallow embedding of the curve iterator of the engine and the
    properties its specification states about it.

    Numbers.  A JavaScript number is modelled as an exact rational or one of
    the three non-finite values [NaN], [-Infinity], [+Infinity]; the
    arithmetic follows IEEE 754 on the non-finite values and on division by
    zero, and is exact on finite values.  Rounding, overflow of finite
    arithmetic and the sign of zero are outside the model: on doubles a sum,
    difference, product or quotient of finite numbers is rounded and can be
    infinite.  The comparisons, the choice of the span, the fields that are
    copied from keys and the exceptions do not depend on this; the results
    that state the value of an arithmetic expression are results about
    exact arithmetic.

    Exceptions.  Reading an element of [undefined] (a key index out of range)
    and calling a property that is not a function raise [TypeError]; every
    method therefore returns a [result]. *)

From Stdlib Require Import List String Bool Arith Lia ZArith QArith Qreduction Lqa.
Import ListNotations.

(** ** Results of fallible calls *)

Inductive exn : Type :=
| TypeError (msg : string).

Inductive result (A : Type) : Type :=
| Ok (a : A)
| Throw (e : exn).

Arguments Ok {A} a.
Arguments Throw {A} e.

Definition bind {A B : Type} (r : result A) (k : A -> result B) : result B :=
  match r with
  | Ok a => k a
  | Throw e => Throw e
  end.

Notation "x <- r ;; k" := (bind r (fun x => k))
  (at level 61, r at next level, right associativity).

(** ** Numbers *)

Inductive Num : Type :=
| NaN
| NegInf
| PosInf
| Fin (q : Q).

Declare Scope num_scope.
Delimit Scope num_scope with num.
Bind Scope num_scope with Num.

Module JS.

Definition zero : Num := Fin 0.
Definition one : Num := Fin 1.
Definition two : Num := Fin 2.
Definition three : Num := Fin 3.
Definition half : Num := Fin (1 # 2).

Definition Qltb (a b : Q) : bool :=
  match a ?= b with Lt => true | _ => false end.

Definition Qleb (a b : Q) : bool :=
  match a ?= b with Gt => false | _ => true end.

Definition Qeqb (a b : Q) : bool :=
  match a ?= b with Eq => true | _ => false end.

(** The sign of a number, with zero counted as positive (there is one zero). *)
Definition negative (x : Num) : bool :=
  match x with
  | NegInf => true
  | Fin q => Qltb q 0
  | _ => false
  end.

Definition is_zero (x : Num) : bool :=
  match x with
  | Fin q => Qeqb q 0
  | _ => false
  end.

Definition inf (neg : bool) : Num := if neg then NegInf else PosInf.

Definition add (x y : Num) : Num :=
  match x, y with
  | NaN, _ | _, NaN => NaN
  | PosInf, NegInf | NegInf, PosInf => NaN
  | PosInf, _ | _, PosInf => PosInf
  | NegInf, _ | _, NegInf => NegInf
  | Fin a, Fin b => Fin (Qred (a + b))
  end.

Definition sub (x y : Num) : Num :=
  match x, y with
  | NaN, _ | _, NaN => NaN
  | PosInf, PosInf | NegInf, NegInf => NaN
  | PosInf, _ | _, NegInf => PosInf
  | NegInf, _ | _, PosInf => NegInf
  | Fin a, Fin b => Fin (Qred (a - b))
  end.

Definition mul (x y : Num) : Num :=
  match x, y with
  | NaN, _ | _, NaN => NaN
  | Fin a, Fin b => Fin (Qred (a * b))
  | _, _ =>
      if is_zero x || is_zero y then NaN
      else inf (xorb (negative x) (negative y))
  end.

Definition div (x y : Num) : Num :=
  match x, y with
  | NaN, _ | _, NaN => NaN
  | Fin a, Fin b =>
      if Qeqb b 0 then (if Qeqb a 0 then NaN else inf (Qltb a 0))
      else Fin (Qred (a / b))
  | Fin _, _ => Fin 0
  | _, Fin _ => inf (xorb (negative x) (negative y))
  | _, _ => NaN
  end.

(** [x < y]; false as soon as one side is [NaN]. *)
Definition ltb (x y : Num) : bool :=
  match x, y with
  | NaN, _ | _, NaN => false
  | _, NegInf => false
  | NegInf, _ => true
  | PosInf, _ => false
  | _, PosInf => true
  | Fin a, Fin b => Qltb a b
  end.

(** [x <= y]; false as soon as one side is [NaN]. *)
Definition leb (x y : Num) : bool :=
  match x, y with
  | NaN, _ | _, NaN => false
  | NegInf, _ => true
  | _, PosInf => true
  | _, NegInf => false
  | PosInf, _ => false
  | Fin a, Fin b => Qleb a b
  end.

Definition gtb (x y : Num) : bool := ltb y x.
Definition geb (x y : Num) : bool := leb y x.

(** [x === y] on numbers. *)
Definition eqb (x y : Num) : bool :=
  match x, y with
  | NegInf, NegInf | PosInf, PosInf => true
  | Fin a, Fin b => Qeqb a b
  | _, _ => false
  end.

(** The global [isFinite]. *)
Definition isFinite (x : Num) : bool :=
  match x with
  | Fin _ => true
  | _ => false
  end.

(** Numbers that [||] replaces by its right operand. *)
Definition falsy (x : Num) : bool :=
  match x with
  | NaN => true
  | Fin q => Qeqb q 0
  | _ => false
  end.

End JS.

Notation "0" := JS.zero : num_scope.
Notation "1" := JS.one : num_scope.
Notation "2" := JS.two : num_scope.
Notation "3" := JS.three : num_scope.
Infix "+" := JS.add : num_scope.
Infix "-" := JS.sub : num_scope.
Infix "*" := JS.mul : num_scope.
Infix "/" := JS.div : num_scope.
Infix "<?" := JS.ltb (at level 70) : num_scope.
Infix "<=?" := JS.leb (at level 70) : num_scope.
Infix ">?" := JS.gtb (at level 70) : num_scope.
Infix ">=?" := JS.geb (at level 70) : num_scope.
Infix "===" := JS.eqb (at level 70) : num_scope.

Local Open Scope num_scope.

(** A finite number given by an integer. *)
Definition num (z : Z) : Num := Fin (inject_Z z).

(** ** Curves

    The curve is owned by the caller: [keys] is an array of [[time, value]]
    pairs, [type] one of the [pc.CURVE_*] constants, [tension] a number. *)

Inductive CurveType : Type :=
| CURVE_LINEAR
| CURVE_SMOOTHSTEP
| CURVE_CATMULL
| CURVE_CARDINAL
| CURVE_CARDINAL_STABLE
| CURVE_STEP.

Definition CurveType_eqb (a b : CurveType) : bool :=
  match a, b with
  | CURVE_LINEAR, CURVE_LINEAR
  | CURVE_SMOOTHSTEP, CURVE_SMOOTHSTEP
  | CURVE_CATMULL, CURVE_CATMULL
  | CURVE_CARDINAL, CURVE_CARDINAL
  | CURVE_CARDINAL_STABLE, CURVE_CARDINAL_STABLE
  | CURVE_STEP, CURVE_STEP => true
  | _, _ => false
  end.

Definition Key : Type := (Num * Num)%type.

(** [k[0]] and [k[1]] of a key. *)
Definition ktime (k : Key) : Num := fst k.
Definition kvalue (k : Key) : Num := snd k.

Record Curve : Type := {
  keys : list Key;
  type : CurveType;
  tension : Num
}.

(** ** The iterator *)

Record Iterator : Type := {
  curve : Curve;
  time_ : Num;
  left : Num;
  right : Num;
  recip : Num;
  p0 : Num;
  p1 : Num;
  m0 : Num;
  m1 : Num
}.

Definition set_time_ (t : Num) (it : Iterator) : Iterator :=
  {| curve := curve it; time_ := t; left := left it; right := right it;
     recip := recip it; p0 := p0 it; p1 := p1 it; m0 := m0 it; m1 := m1 it |}.

Definition set_tangents (a b : Num) (it : Iterator) : Iterator :=
  {| curve := curve it; time_ := time_ it; left := left it; right := right it;
     recip := recip it; p0 := p0 it; p1 := p1 it; m0 := a; m1 := b |}.

(** [keys[i]], read for its components: [undefined[0]] is a [TypeError]. *)
Definition key_at (ks : list Key) (i : nat) : result Key :=
  match nth_error ks i with
  | Some k => Ok k
  | None => Throw (TypeError "Cannot read properties of undefined")
  end.

(** [_isHermite]: the type is one of the three listed constants. *)
Definition _isHermite (it : Iterator) : bool :=
  existsb (CurveType_eqb (type (curve it)))
          [CURVE_CATMULL; CURVE_CARDINAL; CURVE_CARDINAL_STABLE].

(** [_calcTangents(keys, index)]. *)
Definition _calcTangents (ks : list Key) (index : nat) (it : Iterator)
  : result Iterator :=
  b <- key_at ks index ;;
  c <- key_at ks (index + 1) ;;
  a <- (if Nat.eqb index 0 then
          k0 <- key_at ks 0 ;;
          k1 <- key_at ks 1 ;;
          Ok (ktime k0 + (ktime k0 - ktime k1),
              kvalue k0 + (kvalue k0 - kvalue k1))
        else key_at ks (index - 1)) ;;
  (* index == keys.length - 2, stated without a subtraction on nat *)
  d <- (if Nat.eqb (index + 2) (List.length ks) then
          Ok (ktime c + (ktime c - ktime b),
              kvalue c + (kvalue c - kvalue b))
        else key_at ks (index + 2)) ;;
  if CurveType_eqb (type (curve it)) CURVE_CARDINAL_STABLE then
    let s1_ := 2 * (ktime c - ktime b) / (ktime c - ktime a) in
    let s2_ := 2 * (ktime c - ktime b) / (ktime d - ktime b) in
    Ok (set_tangents
          (tension (curve it) * (if JS.isFinite s1_ then s1_ else 0)
           * (kvalue c - kvalue a))
          (tension (curve it) * (if JS.isFinite s2_ then s2_ else 0)
           * (kvalue d - kvalue b))
          it)
  else
    let s1 := (ktime c - ktime b) / (ktime b - ktime a) in
    let s2 := (ktime c - ktime b) / (ktime d - ktime c) in
    let a_ := kvalue b + (kvalue a - kvalue b) * (if JS.isFinite s1 then s1 else 0) in
    let d_ := kvalue c + (kvalue d - kvalue c) * (if JS.isFinite s2 then s2 else 0) in
    let tension_ :=
      if CurveType_eqb (type (curve it)) CURVE_CATMULL then JS.half
      else tension (curve it) in
    Ok (set_tangents (tension_ * (kvalue c - a_)) (tension_ * (d_ - kvalue b)) it).

(** The loop [while (this.time_ >= keys[index + 1][0]) index++].  [rest] is
    the part of [keys] from position [index + 1] on, so its head is
    [keys[index + 1]]; when it is empty, [keys[index + 1]] is [undefined]. *)
Fixpoint scan (time : Num) (rest : list Key) (index : nat) : result nat :=
  match rest with
  | [] => Throw (TypeError "Cannot read properties of undefined")
  | k :: rest' =>
      if time >=? ktime k then scan time rest' (S index) else Ok index
  end.

(** [reset(time)]. *)
Definition reset (time : Num) (it : Iterator) : result Iterator :=
  let ks := keys (curve it) in
  let len := List.length ks in
  if Nat.eqb len 0 then
    Ok {| curve := curve it; time_ := time;
          left := NegInf; right := PosInf; recip := 0;
          p0 := 0; p1 := 0; m0 := 0; m1 := 0 |}
  else
    first <- key_at ks 0 ;;
    if time <? ktime first then
      Ok {| curve := curve it; time_ := time;
            left := NegInf; right := ktime first; recip := 0;
            p0 := kvalue first; p1 := kvalue first; m0 := 0; m1 := 0 |}
    else
      last <- key_at ks (len - 1) ;;
      if time >=? ktime last then
        Ok {| curve := curve it; time_ := time;
              left := ktime last; right := PosInf; recip := 0;
              p0 := kvalue last; p1 := kvalue last; m0 := 0; m1 := 0 |}
      else
        index <- scan time (tl ks) 0 ;;
        kl <- key_at ks index ;;
        kr <- key_at ks (index + 1) ;;
        let diff := 1 / (ktime kr - ktime kl) in
        let it' :=
          {| curve := curve it; time_ := time;
             left := ktime kl; right := ktime kr;
             recip := if JS.isFinite diff then diff else 0;
             p0 := kvalue kl; p1 := kvalue kr;
             m0 := m0 it; m1 := m1 it |} in
        if _isHermite it' then _calcTangents ks index it' else Ok it'.

(** The constructor: [time || 0], the initial fields, then [reset]. *)
Definition CurveIterator (c : Curve) (time : option Num) : result Iterator :=
  let t := match time with
           | Some t => if JS.falsy t then 0 else t
           | None => 0
           end in
  reset t {| curve := c; time_ := t; left := NegInf; right := PosInf;
             recip := 0; p0 := 0; p1 := 0; m0 := 0; m1 := 0 |}.

(** [_evaluateHermite(p0, p1, m0, m1, t)]. *)
Definition _evaluateHermite (p0 p1 m0 m1 t : Num) : Num :=
  let t2 := t * t in
  let twot := t + t in
  let omt := 1 - t in
  let omt2 := omt * omt in
  p0 * ((1 + twot) * omt2) +
  m0 * (t * omt2) +
  p1 * (t2 * (3 - twot)) +
  m1 * (t2 * (t - 1)).

(** The methods of [CurveIterator.prototype] that take
    [(p0, p1, m0, m1, t)]: the object literal defines one. *)
Definition prototype : list (string * (Num -> Num -> Num -> Num -> Num -> Num)) :=
  [("_evaluateHermite"%string, _evaluateHermite)].

(** [this.<name>], to be called: a property the prototype does not have is
    [undefined], and calling it is a [TypeError]. *)
Definition method (name : string)
  : result (Num -> Num -> Num -> Num -> Num -> Num) :=
  match find (fun m => String.eqb (fst m) name) prototype with
  | Some m => Ok (snd m)
  | None => Throw (TypeError (name ++ " is not a function"))
  end.

(** Modelled from the spec: [pc.math.lerp] is not part of the source at
    hand; the spec calls it the linear interpolation of its first two
    arguments by the third. *)
Definition lerp (a b alpha : Num) : Num := a + (b - a) * alpha.

(** [evaluate()]. *)
Definition evaluate (it : Iterator) : result Num :=
  let c := curve it in
  if CurveType_eqb (type c) CURVE_STEP then
    Ok (p0 it)
  else
    let t := if recip it === 0 then 0 else (time_ it - left it) * recip it in
    if CurveType_eqb (type c) CURVE_LINEAR then
      Ok (lerp (p0 it) (p1 it) t)
    else if CurveType_eqb (type c) CURVE_SMOOTHSTEP then
      Ok (lerp (p0 it) (p1 it) (t * t * (3 - 2 * t)))
    else
      f <- method "_evaluateHermite2" ;;
      Ok (f (p0 it) (p1 it) (m0 it) (m1 it) t).

(** [advance(amount)]. *)
Definition advance (amount : Num) (it : Iterator) : result Iterator :=
  let it := set_time_ (time_ it + amount) it in
  if amount >=? 0 then
    if time_ it >? right it then reset (time_ it) it else Ok it
  else if time_ it <? left it then reset (time_ it) it
  else Ok it.

(** [value(time)]: the value returned and the iterator afterwards. *)
Definition value (time : Num) (it : Iterator) : result (Num * Iterator) :=
  it' <- (if (time <? left it) || (time >=? right it) then reset time it
          else Ok (set_time_ time it)) ;;
  v <- evaluate it' ;;
  Ok (v, it').

(** [time()]. *)
Definition time (it : Iterator) : Num := time_ it.

(** ** Notions the properties are stated with *)

(** The fields the constructor writes before its call of [reset]. *)
Definition blank (c : Curve) (t : Num) : Iterator :=
  {| curve := c; time_ := t; left := NegInf; right := PosInf;
     recip := 0; p0 := 0; p1 := 0; m0 := 0; m1 := 0 |}.

(** A new iterator of [c] at time [t]. *)
Definition fresh (c : Curve) (t : Num) : result Iterator := reset t (blank c t).

(** The iterator is in the state a new iterator of its curve has at its time. *)
Definition synced (it : Iterator) : Prop := fresh (curve it) (time_ it) = Ok it.

Definition is_number (x : Num) : bool :=
  match x with
  | NaN => false
  | _ => true
  end.

(** The key times are numbers, each strictly less than the next. *)
Fixpoint strictly_increasing (ks : list Key) : bool :=
  match ks with
  | [] => true
  | k :: rest =>
      is_number (ktime k) &&
      match rest with
      | [] => true
      | k' :: _ => ktime k <? ktime k'
      end &&
      strictly_increasing rest
  end.

Definition finite_key (k : Key) : bool :=
  JS.isFinite (ktime k) && JS.isFinite (kvalue k).

(** The cached fields other than the tangents agree. *)
Definition same_span (a b : Iterator) : Prop :=
  curve a = curve b /\ time_ a = time_ b /\ left a = left b /\
  right a = right b /\ recip a = recip b /\ p0 a = p0 b /\ p1 a = p1 b.

(** [v] is the value of the greatest key of [ks] whose time is at most [t],
    or the value of the first key when [t] is before its time. *)
Definition step_value (ks : list Key) (t v : Num) : Prop :=
  (exists k,
      In k ks /\ (ktime k <=? t) = true /\
      (forall k', In k' ks -> (ktime k' <=? t) = true ->
                  (ktime k' <=? ktime k) = true) /\
      v = kvalue k)
  \/
  (exists k rest, ks = k :: rest /\ (t <? ktime k) = true /\ v = kvalue k).

(** Linear extrapolation past [q], away from [p]: [q + (q - p)] on the time
    and on the value. *)
Definition extrapolate (p q : Key) : Key :=
  (ktime q + (ktime q - ktime p), kvalue q + (kvalue q - kvalue p)).

(** The key to the left of the span that starts at [ks[i]]: the real
    neighbour, or the extrapolation from the first two keys when there is
    none. *)
Definition left_neighbour (ks : list Key) (i : nat) : option Key :=
  match i with
  | S j => nth_error ks j
  | O =>
      match ks with
      | k0 :: k1 :: _ => Some (extrapolate k1 k0)
      | _ => None
      end
  end.

(** The key to the right of the span that ends at [ks[i + 1]]: the real
    neighbour, or the extrapolation from the last two keys when there is
    none. *)
Definition right_neighbour (ks : list Key) (i : nat) : option Key :=
  match nth_error ks (i + 2) with
  | Some d => Some d
  | None =>
      match rev ks with
      | kl :: kp :: _ => Some (extrapolate kp kl)
      | _ => None
      end
  end.

(** A scale factor, replaced by 0 when it is not finite. *)
Definition guarded (s : Num) : Num := if JS.isFinite s then s else 0.

(** The state [reset] leaves outside the keys: a span [l, r) on which the
    curve is the constant [v]. *)
Definition clamped (c : Curve) (t l r v : Num) : Iterator :=
  {| curve := c; time_ := t; left := l; right := r; recip := 0;
     p0 := v; p1 := v; m0 := 0; m1 := 0 |}.

(** The state [reset] leaves between the keys [kl] and [kr], before the
    tangents are computed: it keeps the tangents [a] and [b] it found. *)
Definition between (c : Curve) (t : Num) (kl kr : Key) (a b : Num) : Iterator :=
  {| curve := c; time_ := t; left := ktime kl; right := ktime kr;
     recip := guarded (1 / (ktime kr - ktime kl));
     p0 := kvalue kl; p1 := kvalue kr; m0 := a; m1 := b |}.

(** The normalized parameter [t] of [evaluate]. *)
Definition normalized (it : Iterator) : Num :=
  if recip it === 0 then 0 else (time_ it - left it) * recip it.

(** The cubic Hermite basis of the specification, on rationals. *)
Definition hermite_basis (p0 p1 m0 m1 t : Q) : Q :=
  (p0 * (1 + 2 * t) * (1 - t) ^ 2 + m0 * t * (1 - t) ^ 2
   + p1 * t ^ 2 * (3 - 2 * t) + m1 * t ^ 2 * (t - 1))%Q.




(** The curve of the iterator after the assignment [curve.type = ty] by its
    owner: the iterator refers to the curve, so it sees the new type, while
    its cached fields stay as they are. *)
Definition retype (ty : CurveType) (it : Iterator) : Iterator :=
  {| curve := {| keys := keys (curve it); type := ty;
                 tension := tension (curve it) |};
     time_ := time_ it; left := left it; right := right it;
     recip := recip it; p0 := p0 it; p1 := p1 it; m0 := m0 it; m1 := m1 it |}.

(** [value] at each time in turn: the values returned. *)
Fixpoint value_seq (it : Iterator) (times : list Num) : result (list Num) :=
  match times with
  | [] => Ok []
  | t :: rest =>
      r <- value t it ;;
      vs <- value_seq (snd r) rest ;;
      Ok (fst r :: vs)
  end.

(** What new iterators of [c], one for each time, evaluate to. *)
Fixpoint fresh_values (c : Curve) (times : list Num) : result (list Num) :=
  match times with
  | [] => Ok []
  | t :: rest =>
      s <- fresh c t ;;
      v <- evaluate s ;;
      vs <- fresh_values c rest ;;
      Ok (v :: vs)
  end.


(** The remap of the normalized parameter that [evaluate] applies for
    [CURVE_SMOOTHSTEP], on rationals. *)
Definition smoothstep (n : Q) : Q := (n * n * (3 - 2 * n))%Q.

(** ** Curves used as examples *)

Definition key (t v : Z) : Key := (num t, num v).

Definition two_keys (ty : CurveType) : Curve :=
  {| keys := [key 0 0; key 10 10]; type := ty; tension := JS.half |}.

Definition four_keys (ty : CurveType) : Curve :=
  {| keys := [key 0 0; key 1 2; key 3 3; key 7 1]; type := ty; tension := JS.half |}.

Definition no_keys (ty : CurveType) : Curve :=
  {| keys := []; type := ty; tension := 1 |}.

Definition one_key (ty : CurveType) : Curve :=
  {| keys := [key 4 6]; type := ty; tension := 1 |}.

Definition uniform_keys (ty : CurveType) : Curve :=
  {| keys := [key 0 1; key 2 5; key 4 3; key 6 9]; type := ty; tension := 1 |}.

Definition nan_key (ty : CurveType) : Curve :=
  {| keys := [key 0 0; (NaN, num 1); key 10 2]; type := ty; tension := 1 |}.

(** An iterator made at time 2 on the four keys as a cardinal curve, seen
    after the curve was turned into a linear one. *)
Definition stale : Iterator :=
  match fresh (four_keys CURVE_CARDINAL) (num 2) with
  | Ok it => retype CURVE_LINEAR it
  | Throw _ => blank (four_keys CURVE_LINEAR) (num 2)
  end.

(** * Facts about numbers *)

Section NumFacts.

Lemma Qltb_true (a b : Q) : JS.Qltb a b = true <-> (a < b)%Q.
Proof.
  unfold JS.Qltb. rewrite Qlt_alt.
  destruct (a ?= b)%Q; split; congruence.
Qed.

Lemma Qltb_false (a b : Q) : JS.Qltb a b = false <-> (b <= a)%Q.
Proof.
  rewrite <- not_true_iff_false, Qltb_true. split.
  - apply Qnot_lt_le.
  - apply Qle_not_lt.
Qed.

Lemma Qleb_true (a b : Q) : JS.Qleb a b = true <-> (a <= b)%Q.
Proof.
  unfold JS.Qleb. rewrite Qle_alt.
  destruct (a ?= b)%Q; split; congruence.
Qed.

Lemma Qleb_false (a b : Q) : JS.Qleb a b = false <-> (b < a)%Q.
Proof.
  rewrite <- not_true_iff_false, Qleb_true. split.
  - apply Qnot_le_lt.
  - apply Qlt_not_le.
Qed.

Lemma Qeqb_true (a b : Q) : JS.Qeqb a b = true <-> (a == b)%Q.
Proof.
  unfold JS.Qeqb. rewrite Qeq_alt.
  destruct (a ?= b)%Q; split; congruence.
Qed.

Lemma Qeqb_false (a b : Q) : JS.Qeqb a b = false <-> ~ (a == b)%Q.
Proof.
  rewrite <- not_true_iff_false, Qeqb_true. tauto.
Qed.

End NumFacts.

(** Turns the boolean comparisons of rationals in the context and the goal
    into propositions, and removes the normalisation. *)
Ltac q_reflect :=
  repeat match goal with
    | H : JS.Qltb _ _ = true |- _ => apply Qltb_true in H
    | H : JS.Qltb _ _ = false |- _ => apply Qltb_false in H
    | H : JS.Qleb _ _ = true |- _ => apply Qleb_true in H
    | H : JS.Qleb _ _ = false |- _ => apply Qleb_false in H
    | H : JS.Qeqb _ _ = true |- _ => apply Qeqb_true in H
    | H : JS.Qeqb _ _ = false |- _ => apply Qeqb_false in H
    | H : context [Qred _] |- _ => rewrite Qred_correct in H
    | |- JS.Qltb _ _ = true => apply Qltb_true
    | |- JS.Qltb _ _ = false => apply Qltb_false
    | |- JS.Qleb _ _ = true => apply Qleb_true
    | |- JS.Qleb _ _ = false => apply Qleb_false
    | |- JS.Qeqb _ _ = true => apply Qeqb_true
    | |- JS.Qeqb _ _ = false => apply Qeqb_false
    | |- context [Qred _] => rewrite Qred_correct
    end.

(** Case analysis on the numbers of a goal about comparisons. *)
Ltac num_order :=
  intros;
  repeat match goal with
    | x : Num |- _ => destruct x
    end;
  cbn -[Qred Qplus Qminus Qmult Qdiv Qopp Qinv] in *; try congruence;
  q_reflect; try lra.

Section Order.

Lemma ltb_geb (x y : Num) : (x <? y) = true -> (x >=? y) = false.
Proof. unfold JS.geb. num_order. Qed.

Lemma geb_ltb (x y : Num) : (x >=? y) = true -> (x <? y) = false.
Proof. unfold JS.geb. num_order. Qed.

Lemma not_ltb_geb (x y : Num) :
  x <> NaN -> y <> NaN -> (x <? y) = false -> (x >=? y) = true.
Proof. unfold JS.geb. num_order. Qed.

Lemma not_geb_ltb (x y : Num) :
  x <> NaN -> y <> NaN -> (x >=? y) = false -> (x <? y) = true.
Proof. unfold JS.geb. num_order. Qed.

Lemma leb_trans (x y z : Num) :
  (x <=? y) = true -> (y <=? z) = true -> (x <=? z) = true.
Proof. num_order. Qed.

Lemma ltb_leb_trans (x y z : Num) :
  (x <? y) = true -> (y <=? z) = true -> (x <? z) = true.
Proof. num_order. Qed.

Lemma leb_ltb_trans (x y z : Num) :
  (x <=? y) = true -> (y <? z) = true -> (x <? z) = true.
Proof. num_order. Qed.

Lemma ltb_trans (x y z : Num) :
  (x <? y) = true -> (y <? z) = true -> (x <? z) = true.
Proof. num_order. Qed.

Lemma ltb_leb (x y : Num) : (x <? y) = true -> (x <=? y) = true.
Proof. num_order. Qed.

Lemma ltb_not_NaN_l (x y : Num) : (x <? y) = true -> x <> NaN.
Proof. num_order. Qed.


Lemma leb_not_NaN_l (x y : Num) : (x <=? y) = true -> x <> NaN.
Proof. num_order. Qed.

Lemma leb_not_NaN_r (x y : Num) : (x <=? y) = true -> y <> NaN.
Proof. num_order. Qed.

Lemma isFinite_not_NaN (x : Num) : JS.isFinite x = true -> x <> NaN.
Proof. num_order. Qed.




End Order.

(** * Reading keys *)

Section Keys.

Lemma key_at_Ok (ks : list Key) (i : nat) (k : Key) :
  key_at ks i = Ok k <-> nth_error ks i = Some k.
Proof.
  unfold key_at. destruct (nth_error ks i); split; congruence.
Qed.

Lemma key_at_in_range (ks : list Key) (i : nat) :
  (i < List.length ks)%nat -> exists k, key_at ks i = Ok k.
Proof.
  intros Hi. unfold key_at.
  destruct (nth_error ks i) eqn:E.
  - eauto.
  - apply nth_error_None in E. lia.
Qed.

Lemma key_at_length (ks : list Key) (i : nat) (k : Key) :
  key_at ks i = Ok k -> (i < List.length ks)%nat.
Proof.
  rewrite key_at_Ok. intros E. apply nth_error_Some. congruence.
Qed.

Lemma nth_error_tl (ks : list Key) (j : nat) :
  nth_error (tl ks) j = nth_error ks (S j).
Proof. destruct ks; [destruct j|]; reflexivity. Qed.

(** The scan stops at the first key, after the one at [index], whose time
    is not reached. *)
Lemma scan_Ok (t : Num) (rest : list Key) (index i : nat) :
  scan t rest index = Ok i ->
  (index <= i)%nat /\
  (forall j, (j < i - index)%nat ->
             exists k, nth_error rest j = Some k /\ (t >=? ktime k) = true) /\
  (exists k, nth_error rest (i - index) = Some k /\ (t >=? ktime k) = false).
Proof.
  revert index. induction rest as [|k rest IH]; intros index H; cbn in H.
  - discriminate.
  - destruct (t >=? ktime k) eqn:E.
    + apply IH in H. destruct H as (Hle & Hbefore & k' & Hk' & Hstop).
      split; [lia|]. split.
      * intros [|j] Hj.
        -- exists k. auto.
        -- destruct (Hbefore j) as (kj & ? & ?); [lia|]. exists kj. auto.
      * exists k'. replace (i - index)%nat with (S (i - S index)) by lia. auto.
    + inversion H; subst i. rewrite Nat.sub_diag.
      split; [lia|]. split; [intros j Hj; lia|]. exists k. auto.
Qed.

Lemma scan_complete (t : Num) (rest : list Key) (index n : nat) :
  (forall j, (j < n)%nat ->
             exists k, nth_error rest j = Some k /\ (t >=? ktime k) = true) ->
  (exists k, nth_error rest n = Some k /\ (t >=? ktime k) = false) ->
  scan t rest index = Ok (index + n)%nat.
Proof.
  revert rest index. induction n as [|n IH]; intros rest index Hbefore (k & Hk & Hstop).
  - destruct rest as [|k' rest]; cbn in Hk; [discriminate|].
    inversion Hk; subst k'. cbn. rewrite Hstop. f_equal. lia.
  - destruct rest as [|k' rest]; cbn in Hk; [discriminate|].
    destruct (Hbefore 0%nat) as (k0 & Hk0 & Hge); [lia|].
    cbn in Hk0. inversion Hk0; subst k0. cbn. rewrite Hge.
    rewrite (IH rest (S index)).
    + f_equal. lia.
    + intros j Hj. apply (Hbefore (S j)). lia.
    + eauto.
Qed.

Lemma skipn_cons_nth (ks : list Key) (n : nat) (k : Key) :
  nth_error ks n = Some k -> skipn n ks = k :: skipn (S n) ks.
Proof.
  revert ks. induction n as [|n IH]; intros [|k' ks] E; cbn in E; try discriminate.
  - inversion E. reflexivity.
  - cbn [skipn]. rewrite (IH ks E). reflexivity.
Qed.

(** The scan as the loop reads it: one test of [keys[index + 1]] a turn. *)
Lemma scan_step (t : Num) (ks : list Key) (index : nat) :
  scan t (skipn (S index) ks) index =
  (k <- key_at ks (index + 1) ;;
   if t >=? ktime k then scan t (skipn (S (S index)) ks) (S index)
   else Ok index).
Proof.
  unfold key_at. replace (index + 1)%nat with (S index) by lia.
  destruct (nth_error ks (S index)) as [k|] eqn:E.
  - rewrite (skipn_cons_nth _ _ _ E). reflexivity.
  - apply nth_error_None in E. rewrite skipn_all2 by lia. reflexivity.
Qed.

Lemma last_index_cons (k k' : Key) (l : list Key) :
  nth_error (k :: k' :: l) (List.length (k :: k' :: l) - 1) =
  nth_error (k' :: l) (List.length (k' :: l) - 1).
Proof. cbn [List.length]. rewrite !Nat.sub_succ, !Nat.sub_0_r. reflexivity. Qed.

Lemma scan_below_last (t : Num) (last : Key) (rest : list Key) (index : nat) :
  nth_error rest (List.length rest - 1) = Some last ->
  (t >=? ktime last) = false ->
  exists i, scan t rest index = Ok i /\ (i < index + List.length rest)%nat.
Proof.
  intros Hlast Hstop. revert index Hlast.
  induction rest as [|k rest IH]; intros index Hlast; [discriminate|].
  cbn [scan]. destruct (t >=? ktime k) eqn:E.
  - destruct rest as [|k' rest'].
    + cbn in Hlast. inversion Hlast; subst k. congruence.
    + rewrite last_index_cons in Hlast.
      destruct (IH (S index) Hlast) as (i & Hi & Hlt).
      exists i. split; [exact Hi|]. cbn [List.length] in *. lia.
  - exists index. split; [reflexivity|]. cbn. lia.
Qed.

(** Within the range of the keys the scan stays below the last index. *)
Lemma scan_in_range (t : Num) (ks : list Key) (last : Key) :
  key_at ks (List.length ks - 1) = Ok last ->
  (2 <= List.length ks)%nat ->
  (t >=? ktime last) = false ->
  exists i, scan t (tl ks) 0 = Ok i /\ (i + 1 < List.length ks)%nat.
Proof.
  intros Hlast Hlen Hstop. apply key_at_Ok in Hlast.
  destruct ks as [|k0 [|k1 ks]]; cbn in Hlen; try lia.
  rewrite last_index_cons in Hlast. cbn [tl].
  destruct (scan_below_last t _ (k1 :: ks) 0 Hlast Hstop) as (i & Hi & Hlt).
  exists i. split; [exact Hi|]. cbn [List.length] in *. lia.
Qed.

End Keys.

(** * The cases of [reset] *)

Section Reset.

Variable t : Num.
Variable it : Iterator.

Let c := curve it.
Let ks := keys (curve it).

Lemma reset_empty :
  ks = [] -> reset t it = Ok (clamped c t NegInf PosInf 0).
Proof. unfold reset, ks, c. intros ->. reflexivity. Qed.

Lemma reset_before (first : Key) :
  key_at ks 0 = Ok first -> (t <? ktime first) = true ->
  reset t it = Ok (clamped c t NegInf (ktime first) (kvalue first)).
Proof.
  unfold reset. fold ks c. intros Hf Hlt.
  assert (Hlen := key_at_length _ _ _ Hf).
  destruct (Nat.eqb_spec (List.length ks) 0); [lia|].
  rewrite Hf. cbn [bind]. rewrite Hlt. reflexivity.
Qed.

Lemma reset_after (first last : Key) :
  key_at ks 0 = Ok first -> key_at ks (List.length ks - 1) = Ok last ->
  (t <? ktime first) = false -> (t >=? ktime last) = true ->
  reset t it = Ok (clamped c t (ktime last) PosInf (kvalue last)).
Proof.
  unfold reset. fold ks c. intros Hf Hl Hlt Hge.
  assert (Hlen := key_at_length _ _ _ Hf).
  destruct (Nat.eqb_spec (List.length ks) 0); [lia|].
  rewrite Hf. cbn [bind]. rewrite Hlt, Hl. cbn [bind]. rewrite Hge.
  reflexivity.
Qed.

Lemma reset_between (first last : Key) :
  key_at ks 0 = Ok first -> key_at ks (List.length ks - 1) = Ok last ->
  (t <? ktime first) = false -> (t >=? ktime last) = false ->
  reset t it =
  (index <- scan t (tl ks) 0 ;;
   kl <- key_at ks index ;;
   kr <- key_at ks (index + 1) ;;
   let it' := between c t kl kr (m0 it) (m1 it) in
   if _isHermite it then _calcTangents ks index it' else Ok it').
Proof.
  unfold reset. fold ks c. intros Hf Hl Hlt Hge.
  assert (Hlen := key_at_length _ _ _ Hf).
  destruct (Nat.eqb_spec (List.length ks) 0); [lia|].
  rewrite Hf. cbn [bind]. rewrite Hlt, Hl. cbn [bind]. rewrite Hge.
  reflexivity.
Qed.

(** One of the four cases applies as soon as the first key can be told
    apart from [undefined]. *)
Lemma first_and_last :
  ks <> [] ->
  exists first last,
    key_at ks 0 = Ok first /\ key_at ks (List.length ks - 1) = Ok last.
Proof.
  intros Hne.
  assert (0 < List.length ks)%nat by (destruct ks; [congruence | cbn; lia]).
  destruct (key_at_in_range ks 0) as (first & Hf); [lia|].
  destruct (key_at_in_range ks (List.length ks - 1)) as (last & Hl); [lia|].
  eauto.
Qed.

End Reset.

(** [reset] does not read the time of the iterator. *)
Lemma reset_set_time_ (t u : Num) (it : Iterator) :
  reset t (set_time_ u it) = reset t it.
Proof. reflexivity. Qed.

Section Tangents.

Variable ks : list Key.
Variable index : nat.
Variable it : Iterator.

(** With the span inside the array, every key [_calcTangents] reads is
    there. *)
Lemma calcTangents_Ok :
  (index + 1 < List.length ks)%nat ->
  exists a b, _calcTangents ks index it = Ok (set_tangents a b it).
Proof.
  intros Hi. unfold _calcTangents.
  destruct (key_at_in_range ks index) as (b & ->); [lia|].
  destruct (key_at_in_range ks (index + 1)) as (c & ->); [lia|].
  cbn [bind].
  assert (Ha : exists a,
             (if Nat.eqb index 0 then
                k0 <- key_at ks 0 ;;
                k1 <- key_at ks 1 ;;
                Ok (ktime k0 + (ktime k0 - ktime k1),
                    kvalue k0 + (kvalue k0 - kvalue k1))
              else key_at ks (index - 1)) = Ok a).
  { destruct (Nat.eqb_spec index 0).
    - destruct (key_at_in_range ks 0) as (k0 & ->); [lia|].
      destruct (key_at_in_range ks 1) as (k1 & ->); [lia|].
      cbn [bind]. eauto.
    - apply key_at_in_range. lia. }
  destruct Ha as (a & ->). cbn [bind].
  assert (Hd : exists d,
             (if Nat.eqb (index + 2) (List.length ks) then
                Ok (ktime c + (ktime c - ktime b),
                    kvalue c + (kvalue c - kvalue b))
              else key_at ks (index + 2)) = Ok d).
  { destruct (Nat.eqb_spec (index + 2) (List.length ks)).
    - eauto.
    - apply key_at_in_range. lia. }
  destruct Hd as (d & ->). cbn [bind].
  destruct (CurveType_eqb (type (curve it)) CURVE_CARDINAL_STABLE); eauto.
Qed.

(** The tangents do not depend on the tangents found. *)
Lemma calcTangents_set_tangents (a b : Num) :
  _calcTangents ks index (set_tangents a b it) = _calcTangents ks index it.
Proof. reflexivity. Qed.

End Tangents.

Section Between.

Variable t : Num.
Variable it : Iterator.

Let c := curve it.
Let ks := keys (curve it).

Variables first last : Key.
Hypothesis Hfirst : key_at ks 0 = Ok first.
Hypothesis Hlast : key_at ks (List.length ks - 1) = Ok last.
Hypothesis Hnot_before : (t <? ktime first) = false.
Hypothesis Hnot_after : (t >=? ktime last) = false.

(** A time that is neither before the first key nor at or after the last
    one leaves room for two keys, unless it or the key is [NaN]. *)
Lemma between_two_keys :
  t <> NaN -> ktime first <> NaN -> (2 <= List.length ks)%nat.
Proof.
  intros Ht Hk.
  assert (Hlen := key_at_length _ _ _ Hfirst).
  destruct (Nat.eq_dec (List.length ks) 1) as [E|]; [|lia].
  rewrite E in Hlast. cbn in Hlast. rewrite Hfirst in Hlast.
  inversion Hlast; subst last.
  rewrite (not_ltb_geb _ _ Ht Hk Hnot_before) in Hnot_after. discriminate.
Qed.

(** The result of [reset] between the keys. *)
Lemma reset_between_Ok :
  (2 <= List.length ks)%nat ->
  exists i kl kr a b,
    scan t (tl ks) 0 = Ok i /\ (i + 1 < List.length ks)%nat /\
    key_at ks i = Ok kl /\ key_at ks (i + 1) = Ok kr /\
    reset t it = Ok (between c t kl kr a b) /\
    if _isHermite it
    then _calcTangents ks i (between c t kl kr (m0 it) (m1 it))
         = Ok (between c t kl kr a b)
    else a = m0 it /\ b = m1 it.
Proof.
  intros Hlen.
  destruct (scan_in_range t ks last Hlast Hlen Hnot_after) as (i & Hscan & Hi).
  destruct (key_at_in_range ks i) as (kl & Hkl); [lia|].
  destruct (key_at_in_range ks (i + 1)) as (kr & Hkr); [lia|].
  rewrite (reset_between t it first last Hfirst Hlast Hnot_before Hnot_after).
  unfold ks, c in *. rewrite Hscan. cbn [bind]. rewrite Hkl. cbn [bind].
  rewrite Hkr. cbn [bind]. cbv zeta.
  destruct (_isHermite it) eqn:Hh.
  - destruct (calcTangents_Ok ks i (between c t kl kr (m0 it) (m1 it)) Hi)
      as (a & b & Hab).
    exists i, kl, kr, a, b. repeat split; auto.
  - exists i, kl, kr, (m0 it), (m1 it). repeat split; auto.
Qed.

End Between.

(** [reset] sets the time and keeps the curve. *)
Lemma reset_time_curve (u : Num) (it0 it' : Iterator) :
  reset u it0 = Ok it' -> time_ it' = u /\ curve it' = curve it0.
Proof.
  intros H. unfold reset in H.
  destruct (Nat.eqb (List.length (keys (curve it0))) 0);
    [inversion H; split; reflexivity|].
  destruct (key_at (keys (curve it0)) 0) as [first|]; [|discriminate].
  cbn [bind] in H.
  destruct (u <? ktime first); [inversion H; split; reflexivity|].
  destruct (key_at (keys (curve it0)) (List.length (keys (curve it0)) - 1))
    as [last|]; [|discriminate].
  cbn [bind] in H.
  destruct (u >=? ktime last); [inversion H; split; reflexivity|].
  destruct (scan u (tl (keys (curve it0))) 0) as [i|]; [|discriminate].
  cbn [bind] in H.
  destruct (key_at (keys (curve it0)) i) as [kl|]; [|discriminate].
  cbn [bind] in H.
  destruct (key_at (keys (curve it0)) (i + 1)) as [kr|]; [|discriminate].
  cbn [bind] in H. cbv zeta in H.
  match type of H with
  | (if _isHermite ?s then _ else _) = _ => destruct (_isHermite s)
  end; [|inversion H; split; reflexivity].
  unfold _calcTangents in H.
  repeat match type of H with
         | bind ?r _ = _ => destruct r; [|discriminate]; cbn [bind] in H
         end.
  destruct (CurveType_eqb _ _) in H; inversion H; split; reflexivity.
Qed.

(** * Properties of the specification *)

(** C7. [advance(amount)] adds [amount] to the time.  It performs a full
    [reset] at the new time exactly when [amount >= 0] and the new time is
    strictly greater than [right], or [amount < 0] and the new time is
    strictly less than [left]; in every other case the curve and the cached
    fields [left], [right], [recip], [p0], [p1], [m0], [m1] are unchanged. *)
Theorem advance_resets_or_keeps (amount : Num) (it : Iterator) :
  let t' := time_ it + amount in
  (forall it', advance amount it = Ok it' -> time_ it' = t') /\
  if ((amount >=? 0) && (t' >? right it)) || ((amount <? 0) && (t' <? left it))
  then advance amount it = reset t' it
  else exists it',
      advance amount it = Ok it' /\ time_ it' = t' /\ curve it' = curve it /\
      left it' = left it /\ right it' = right it /\ recip it' = recip it /\
      p0 it' = p0 it /\ p1 it' = p1 it /\ m0 it' = m0 it /\ m1 it' = m1 it.
Proof.
  intros t'.
  pose proof reset_time_curve as Htime.
  unfold advance. fold t'. cbn [time_ left right set_time_].
  split.
  - intros it'.
    destruct (amount >=? 0); [destruct (t' >? right it)|destruct (t' <? left it)];
      intros H; try (inversion H; reflexivity); eapply Htime; exact H.
  - destruct (amount >=? 0) eqn:Hge.
    + assert (Hlt : (amount <? 0) = false) by (apply geb_ltb; exact Hge).
      rewrite Hlt. cbn [andb orb]. rewrite orb_false_r.
      destruct (t' >? right it).
      * reflexivity.
      * eexists. split; [reflexivity|]. cbn. repeat split.
    + cbn [andb orb]. destruct (amount <? 0) eqn:Hlt; cbn [andb].
      * destruct (t' <? left it).
        -- reflexivity.
        -- eexists. split; [reflexivity|]. cbn. repeat split.
      * assert (Hnan : amount = NaN).
        { destruct amount; try reflexivity; cbn in Hge, Hlt; try discriminate.
          unfold JS.geb in Hge. cbn in Hge. q_reflect. lra. }
        assert (Ht' : t' = NaN) by (unfold t'; rewrite Hnan; destruct (time_ it); reflexivity).
        rewrite Ht'. cbn [JS.ltb].
        eexists. split; [reflexivity|]. cbn. repeat split.
Qed.

(** The span the scan finds holds the time. *)
Lemma scan_span (t : Num) (ks : list Key) (first kl kr : Key) (i : nat) :
  t <> NaN ->
  (forall k, In k ks -> ktime k <> NaN) ->
  key_at ks 0 = Ok first ->
  (t <? ktime first) = false ->
  scan t (tl ks) 0 = Ok i ->
  key_at ks i = Ok kl ->
  key_at ks (i + 1) = Ok kr ->
  (ktime kl <=? t) = true /\ (t <? ktime kr) = true.
Proof.
  intros Ht Hnum Hfirst Hb Hscan Hkl Hkr.
  assert (Hin : forall j k, key_at ks j = Ok k -> ktime k <> NaN).
  { intros j k Hk. apply Hnum. apply key_at_Ok, nth_error_In in Hk. exact Hk. }
  apply scan_Ok in Hscan. destruct Hscan as (_ & Hbefore & k & Hk & Hstop).
  rewrite Nat.sub_0_r in *. rewrite nth_error_tl in Hk. split.
  - destruct i as [|j].
    + rewrite Hfirst in Hkl. inversion Hkl; subst kl.
      apply (not_ltb_geb _ _ Ht (Hin _ _ Hfirst) Hb).
    + destruct (Hbefore j) as (kj & Hkj & Hge); [lia|].
      rewrite nth_error_tl in Hkj. apply key_at_Ok in Hkj.
      rewrite Hkl in Hkj. inversion Hkj; subst kj. exact Hge.
  - apply key_at_Ok in Hk. replace (S i) with (i + 1)%nat in Hk by lia.
    rewrite Hkr in Hk. inversion Hk; subst k.
    apply (not_geb_ltb _ _ Ht (Hin _ _ Hkr) Hstop).
Qed.

(** C9. For a time [t] with [keys[0].time <= t < keys[len-1].time] the scan
    of [reset] ends with its index below [len - 1], and every key that
    [reset] and [_calcTangents] read is inside the array: [keys[index]],
    [keys[index + 1]], [keys[index - 1]] when [index] is not 0 and
    [keys[index + 2]] when [index] is not [len - 2]; so [reset] returns
    without a [TypeError].  (The order of the keys in between is not used.) *)
Theorem reset_reads_in_bounds (t : Num) (it : Iterator) (first last : Key) :
  let ks := keys (curve it) in
  key_at ks 0 = Ok first ->
  key_at ks (List.length ks - 1) = Ok last ->
  (ktime first <=? t) = true ->
  (t <? ktime last) = true ->
  exists index,
    scan t (tl ks) 0 = Ok index /\
    (index < List.length ks - 1)%nat /\
    (exists b c, key_at ks index = Ok b /\ key_at ks (index + 1) = Ok c) /\
    (index <> 0%nat -> exists a, key_at ks (index - 1) = Ok a) /\
    ((index + 2 <> List.length ks)%nat -> exists d, key_at ks (index + 2) = Ok d) /\
    (exists it', reset t it = Ok it').
Proof.
  intros ks Hfirst Hlast Hge Hlt. subst ks.
  assert (Hnb : (t <? ktime first) = false) by (apply geb_ltb; exact Hge).
  assert (Hna : (t >=? ktime last) = false) by (apply ltb_geb; exact Hlt).
  assert (Hlen : (2 <= List.length (keys (curve it)))%nat).
  { apply (between_two_keys t it first last Hfirst Hlast Hnb Hna).
    - eapply leb_not_NaN_r; exact Hge.
    - eapply leb_not_NaN_l; exact Hge. }
  destruct (reset_between_Ok t it first last Hfirst Hlast Hnb Hna Hlen)
    as (i & kl & kr & a & b & Hscan & Hi & Hkl & Hkr & Hreset & _).
  exists i. split; [exact Hscan|]. split; [lia|].
  split; [eauto|]. split; [|split].
  - intros Hne. apply key_at_in_range. lia.
  - intros Hne. apply key_at_in_range. lia.
  - eauto.
Qed.

Lemma reset_reads_in_bounds_witness :
  exists index,
    scan (num 2) (tl (keys (four_keys CURVE_CARDINAL))) 0 = Ok index /\
    (index < 3)%nat.
Proof.
  destruct (reset_reads_in_bounds (num 2) (blank (four_keys CURVE_CARDINAL) 0)
              (key 0 0) (key 7 1))
    as (index & Hscan & Hlt & _); try reflexivity.
  exists index. split; [exact Hscan | exact Hlt].
Defined.

(** The span [reset] leaves holds the time, for every time that is a
    number; only [+Infinity] is not below the right end. *)
Lemma reset_Ok_span (t : Num) (it : Iterator) :
  Forall (fun k => ktime k <> NaN) (keys (curve it)) ->
  t <> NaN ->
  exists it',
    reset t it = Ok it' /\ time_ it' = t /\
    (left it' <=? t) = true /\ ((t <? right it') = true \/ t = PosInf).
Proof.
  intros Hnum Ht.
  assert (Hinf : (t <? PosInf) = true \/ t = PosInf)
    by (destruct t; auto; contradiction).
  assert (Hneg : (NegInf <=? t) = true) by (destruct t; auto; contradiction).
  destruct (keys (curve it)) as [|k0 ks'] eqn:Eks.
  - rewrite (reset_empty t it Eks). eexists. split; [reflexivity|].
    cbn. auto.
  - destruct (first_and_last it) as (first & last & Hfirst & Hlast);
      [rewrite Eks; discriminate|].
    assert (Hin : forall i k, key_at (keys (curve it)) i = Ok k -> ktime k <> NaN).
    { intros i k Hk. apply key_at_Ok, nth_error_In in Hk.
      rewrite Eks in Hk. rewrite Forall_forall in Hnum. apply Hnum. exact Hk. }
    destruct (t <? ktime first) eqn:Hb.
    + rewrite (reset_before t it first Hfirst Hb). eexists.
      split; [reflexivity|]. cbn. auto.
    + destruct (t >=? ktime last) eqn:Ha.
      * rewrite (reset_after t it first last Hfirst Hlast Hb Ha). eexists.
        split; [reflexivity|]. cbn. auto.
      * assert (Hlen : (2 <= List.length (keys (curve it)))%nat).
        { apply (between_two_keys t it first last Hfirst Hlast Hb Ha Ht).
          eapply Hin; exact Hfirst. }
        destruct (reset_between_Ok t it first last Hfirst Hlast Hb Ha Hlen)
          as (i & kl & kr & a & b & Hscan & Hi & Hkl & Hkr & Hreset & _).
        rewrite Hreset. eexists. split; [reflexivity|]. cbn.
        split; [reflexivity|].
        destruct (scan_span t (keys (curve it)) first kl kr i) as (Hle & Hlt);
          auto.
        intros k Hk. rewrite Forall_forall in Hnum. apply Hnum.
        rewrite <- Eks. exact Hk.
Qed.

(** * Ordered keys *)

Section Increasing.

Lemma increasing_tail (k : Key) (ks : list Key) :
  strictly_increasing (k :: ks) = true -> strictly_increasing ks = true.
Proof.
  cbn [strictly_increasing]. intros H.
  apply andb_true_iff in H. tauto.
Qed.

Lemma increasing_head_number (k : Key) (ks : list Key) :
  strictly_increasing (k :: ks) = true -> ktime k <> NaN.
Proof.
  cbn [strictly_increasing]. intros H.
  apply andb_true_iff in H. destruct H as (H & _).
  apply andb_true_iff in H. destruct H as (H & _).
  destruct (ktime k); discriminate.
Qed.

Lemma increasing_number (ks : list Key) (k : Key) :
  strictly_increasing ks = true -> In k ks -> ktime k <> NaN.
Proof.
  induction ks as [|k0 ks IH]; intros Hs Hin; [contradiction|].
  destruct Hin as [E|Hin].
  - subst k0. eapply increasing_head_number; exact Hs.
  - apply IH; [eapply increasing_tail; exact Hs | exact Hin].
Qed.

Lemma increasing_head_lt (k : Key) (ks : list Key) (j : nat) (b : Key) :
  strictly_increasing (k :: ks) = true ->
  nth_error ks j = Some b ->
  (ktime k <? ktime b) = true.
Proof.
  revert k j. induction ks as [|k' ks IH]; intros k j Hs Hb.
  - destruct j; discriminate.
  - assert (Hkk' : (ktime k <? ktime k') = true).
    { cbn [strictly_increasing] in Hs.
      apply andb_true_iff in Hs. destruct Hs as (Hs & _).
      apply andb_true_iff in Hs. tauto. }
    destruct j as [|j]; cbn in Hb.
    + inversion Hb; subst b. exact Hkk'.
    + apply increasing_tail in Hs.
      eapply ltb_trans; [exact Hkk'|]. eapply IH; eauto.
Qed.

Lemma increasing_lt (ks : list Key) (i j : nat) (a b : Key) :
  strictly_increasing ks = true ->
  nth_error ks i = Some a -> nth_error ks j = Some b ->
  (i < j)%nat ->
  (ktime a <? ktime b) = true.
Proof.
  revert i j. induction ks as [|k ks IH]; intros i j Hs Ha Hb Hij.
  - destruct i; discriminate.
  - destruct j as [|j]; [lia|]. cbn in Hb. destruct i as [|i]; cbn in Ha.
    + inversion Ha; subst a. eapply increasing_head_lt; eauto.
    + apply increasing_tail in Hs. apply (IH i j); auto. lia.
Qed.

Lemma leb_refl (x : Num) : x <> NaN -> (x <=? x) = true.
Proof. num_order. Qed.

Lemma increasing_le (ks : list Key) (i j : nat) (a b : Key) :
  strictly_increasing ks = true ->
  nth_error ks i = Some a -> nth_error ks j = Some b ->
  (i <= j)%nat ->
  (ktime a <=? ktime b) = true.
Proof.
  intros Hs Ha Hb Hij.
  destruct (Nat.eq_dec i j) as [E|Hne].
  - subst j. rewrite Ha in Hb. inversion Hb; subst b.
    apply leb_refl. eapply increasing_number; [exact Hs|].
    eapply nth_error_In; exact Ha.
  - apply ltb_leb. apply (increasing_lt ks i j); auto. lia.
Qed.

Lemma ltb_irrefl (x : Num) : (x <? x) = false.
Proof. num_order. Qed.

End Increasing.

(** [evaluate] of a step curve is [p0]. *)
Lemma evaluate_step (it : Iterator) :
  type (curve it) = CURVE_STEP -> evaluate it = Ok (p0 it).
Proof. unfold evaluate. intros ->. reflexivity. Qed.

(** C5. For a step curve with at least one key and strictly increasing key
    times, [evaluate()] after [reset(t)] returns the value of the greatest
    key whose time is [<= t], or the value of the first key when [t] is
    before its time.  ([t] is a number.) *)
Theorem step_evaluate (t : Num) (it : Iterator) :
  type (curve it) = CURVE_STEP ->
  keys (curve it) <> [] ->
  strictly_increasing (keys (curve it)) = true ->
  t <> NaN ->
  exists it' v,
    reset t it = Ok it' /\ evaluate it' = Ok v /\
    step_value (keys (curve it)) t v.
Proof.
  intros Hty Hne Hs Ht.
  destruct (first_and_last it Hne) as (first & last & Hfirst & Hlast).
  assert (Hnum : forall k, In k (keys (curve it)) -> ktime k <> NaN)
    by (intros k; apply increasing_number; exact Hs).
  destruct (t <? ktime first) eqn:Hb.
  - exists (clamped (curve it) t NegInf (ktime first) (kvalue first)), (kvalue first).
    split; [apply reset_before; auto|]. split; [apply evaluate_step; exact Hty|].
    right. apply key_at_Ok in Hfirst.
    destruct (keys (curve it)) as [|k0 rest]; [discriminate|].
    cbn in Hfirst. inversion Hfirst; subst k0. eauto.
  - destruct (t >=? ktime last) eqn:Ha.
    + exists (clamped (curve it) t (ktime last) PosInf (kvalue last)), (kvalue last).
      split; [eapply reset_after; eauto|]. split; [apply evaluate_step; exact Hty|].
      left. exists last. apply key_at_Ok in Hlast.
      split; [eapply nth_error_In; exact Hlast|]. split; [exact Ha|].
      split; [|reflexivity].
      intros k' Hin _. apply In_nth_error in Hin. destruct Hin as (j & Hj).
      apply (increasing_le (keys (curve it)) j (List.length (keys (curve it)) - 1));
        auto.
      assert (j < List.length (keys (curve it)))%nat
        by (apply nth_error_Some; congruence).
      lia.
    + assert (Hlen : (2 <= List.length (keys (curve it)))%nat).
      { apply (between_two_keys t it first last Hfirst Hlast Hb Ha Ht).
        apply Hnum. apply key_at_Ok in Hfirst. eapply nth_error_In; exact Hfirst. }
      destruct (reset_between_Ok t it first last Hfirst Hlast Hb Ha Hlen)
        as (i & kl & kr & a & b & Hscan & Hi & Hkl & Hkr & Hreset & _).
      destruct (scan_span t (keys (curve it)) first kl kr i Ht Hnum Hfirst Hb
                  Hscan Hkl Hkr) as (Hle & Hlt).
      exists (between (curve it) t kl kr a b), (kvalue kl).
      split; [exact Hreset|]. split; [apply evaluate_step; exact Hty|].
      left. exists kl. apply key_at_Ok in Hkl, Hkr.
      split; [eapply nth_error_In; exact Hkl|]. split; [exact Hle|].
      split; [|reflexivity].
      intros k' Hin Hk't. apply In_nth_error in Hin. destruct Hin as (j & Hj).
      destruct (le_lt_dec j i) as [Hji|Hij].
      * apply (increasing_le (keys (curve it)) j i); auto.
      * exfalso.
        assert (Hrk : (ktime kr <=? ktime k') = true)
          by (apply (increasing_le (keys (curve it)) (i + 1) j); auto; lia).
        assert (Hcontra : (t <? t) = true).
        { eapply ltb_leb_trans; [exact Hlt|].
          eapply leb_trans; [exact Hrk | exact Hk't]. }
        rewrite ltb_irrefl in Hcontra. discriminate.
Qed.

Lemma step_evaluate_witness :
  exists it' v,
    reset (num 2) (blank (four_keys CURVE_STEP) 0) = Ok it' /\
    evaluate it' = Ok v /\
    step_value (keys (four_keys CURVE_STEP)) (num 2) v.
Proof.
  apply (step_evaluate (num 2) (blank (four_keys CURVE_STEP) 0)).
  - reflexivity.
  - discriminate.
  - reflexivity.
  - discriminate.
Defined.

(** * Tangents *)

Section Neighbours.

Variable ks : list Key.
Variable i : nat.
Variables b c : Key.
Hypothesis Hb : key_at ks i = Ok b.
Hypothesis Hc : key_at ks (i + 1) = Ok c.

(** The key [a] of [_calcTangents] is the left neighbour of the span. *)
Lemma calcTangents_left :
  exists a,
    left_neighbour ks i = Some a /\
    (if Nat.eqb i 0 then
       k0 <- key_at ks 0 ;;
       k1 <- key_at ks 1 ;;
       Ok (ktime k0 + (ktime k0 - ktime k1),
           kvalue k0 + (kvalue k0 - kvalue k1))
     else key_at ks (i - 1)) = Ok a.
Proof.
  destruct i as [|j] eqn:Ei.
  - cbn [Nat.eqb]. apply key_at_Ok in Hb, Hc.
    destruct ks as [|k0 [|k1 rest]]; try discriminate.
    cbn in Hb, Hc. inversion Hb; inversion Hc; subst.
    exists (extrapolate c b). split; reflexivity.
  - cbn [Nat.eqb left_neighbour]. replace (S j - 1)%nat with j by lia.
    destruct (key_at_in_range ks j) as (a & Ha).
    + apply key_at_length in Hb. lia.
    + exists a. split; [apply key_at_Ok|]; exact Ha.
Qed.

(** The key [d] of [_calcTangents] is the right neighbour of the span. *)
Lemma calcTangents_right :
  exists d,
    right_neighbour ks i = Some d /\
    (if Nat.eqb (i + 2) (List.length ks) then
       Ok (ktime c + (ktime c - ktime b),
           kvalue c + (kvalue c - kvalue b))
     else key_at ks (i + 2)) = Ok d.
Proof.
  unfold right_neighbour.
  assert (Hlen := key_at_length _ _ _ Hc).
  destruct (Nat.eqb_spec (i + 2) (List.length ks)) as [E|Hne].
  - assert (Hnone : nth_error ks (i + 2) = None)
      by (apply nth_error_None; lia).
    rewrite Hnone.
    assert (H0 : nth_error (rev ks) 0 = Some c).
    { rewrite nth_error_rev.
      destruct (Nat.ltb_spec 0 (List.length ks)); [|lia].
      apply key_at_Ok in Hc. rewrite <- Hc. f_equal. lia. }
    assert (H1 : nth_error (rev ks) 1 = Some b).
    { rewrite nth_error_rev.
      destruct (Nat.ltb_spec 1 (List.length ks)); [|lia].
      apply key_at_Ok in Hb. rewrite <- Hb. f_equal. lia. }
    destruct (rev ks) as [|kl [|kp rest]]; try discriminate.
    cbn in H0, H1. inversion H0; inversion H1; subst.
    exists (extrapolate b c). split; reflexivity.
  - destruct (key_at_in_range ks (i + 2)) as (d & Hd); [lia|].
    exists d. split; [|exact Hd].
    apply key_at_Ok in Hd. rewrite Hd. reflexivity.
Qed.

(** [_calcTangents] in terms of the neighbours. *)
Lemma calcTangents_neighbours (it : Iterator) :
  exists a d,
    left_neighbour ks i = Some a /\ right_neighbour ks i = Some d /\
    _calcTangents ks i it =
    Ok (if CurveType_eqb (type (curve it)) CURVE_CARDINAL_STABLE then
          set_tangents
            (tension (curve it)
             * guarded (2 * (ktime c - ktime b) / (ktime c - ktime a))
             * (kvalue c - kvalue a))
            (tension (curve it)
             * guarded (2 * (ktime c - ktime b) / (ktime d - ktime b))
             * (kvalue d - kvalue b))
            it
        else
          let a_ := kvalue b + (kvalue a - kvalue b)
                    * guarded ((ktime c - ktime b) / (ktime b - ktime a)) in
          let d_ := kvalue c + (kvalue d - kvalue c)
                    * guarded ((ktime c - ktime b) / (ktime d - ktime c)) in
          let tension_ :=
            if CurveType_eqb (type (curve it)) CURVE_CATMULL then JS.half
            else tension (curve it) in
          set_tangents (tension_ * (kvalue c - a_)) (tension_ * (d_ - kvalue b)) it).
Proof.
  destruct calcTangents_left as (a & Hl & Ha).
  destruct calcTangents_right as (d & Hr & Hd).
  exists a, d. split; [exact Hl|]. split; [exact Hr|].
  unfold _calcTangents. rewrite Hb. cbn [bind]. rewrite Hc. cbn [bind].
  rewrite Ha. cbn [bind]. rewrite Hd. cbn [bind].
  destruct (CurveType_eqb (type (curve it)) CURVE_CARDINAL_STABLE); reflexivity.
Qed.

End Neighbours.

(** C8. For a [CURVE_CARDINAL_STABLE] curve with strictly increasing key
    times and a time inside the range of the keys (so there are two keys at
    least), [reset] finds the span [b, c] that holds the time and sets
    [m0 = tension * s1 * (c.v - a.v)] and [m1 = tension * s2 * (d.v - b.v)]
    with [s1 = 2*(c.t - b.t)/(c.t - a.t)] and [s2 = 2*(c.t - b.t)/(d.t - b.t)],
    each replaced by 0 when it is not finite, where [a] and [d] are the keys
    next to the span on the left and on the right, extrapolated from the
    first and from the last two keys when there is no such key.  The time may
    also be the time of the first key. *)
Theorem cardinal_stable_tangents (t : Num) (it : Iterator) (first last : Key) :
  let ks := keys (curve it) in
  type (curve it) = CURVE_CARDINAL_STABLE ->
  strictly_increasing ks = true ->
  key_at ks 0 = Ok first ->
  key_at ks (List.length ks - 1) = Ok last ->
  (ktime first <=? t) = true ->
  (t <? ktime last) = true ->
  exists i a b c d it',
    reset t it = Ok it' /\
    nth_error ks i = Some b /\ nth_error ks (i + 1) = Some c /\
    left it' = ktime b /\ right it' = ktime c /\
    (ktime b <=? t) = true /\ (t <? ktime c) = true /\
    left_neighbour ks i = Some a /\ right_neighbour ks i = Some d /\
    m0 it' = tension (curve it)
             * guarded (2 * (ktime c - ktime b) / (ktime c - ktime a))
             * (kvalue c - kvalue a) /\
    m1 it' = tension (curve it)
             * guarded (2 * (ktime c - ktime b) / (ktime d - ktime b))
             * (kvalue d - kvalue b).
Proof.
  intros ks Hty Hs Hfirst Hlast Hge Hlt. subst ks.
  assert (Ht : t <> NaN) by (eapply leb_not_NaN_r; exact Hge).
  assert (Hnum : forall k, In k (keys (curve it)) -> ktime k <> NaN)
    by (intros k; apply increasing_number; exact Hs).
  assert (Hnb : (t <? ktime first) = false) by (apply geb_ltb; exact Hge).
  assert (Hna : (t >=? ktime last) = false) by (apply ltb_geb; exact Hlt).
  assert (Hlen : (2 <= List.length (keys (curve it)))%nat).
  { apply (between_two_keys t it first last Hfirst Hlast Hnb Hna Ht).
    eapply leb_not_NaN_l; exact Hge. }
  destruct (reset_between_Ok t it first last Hfirst Hlast Hnb Hna Hlen)
    as (i & b & c & x & y & Hscan & Hi & Hb & Hc & Hreset & Htan).
  destruct (scan_span t (keys (curve it)) first b c i Ht Hnum Hfirst Hnb
              Hscan Hb Hc) as (Hle & Hlt').
  assert (Hh : _isHermite it = true) by (unfold _isHermite; rewrite Hty; reflexivity).
  rewrite Hh in Htan.
  destruct (calcTangents_neighbours (keys (curve it)) i b c Hb Hc
              (between (curve it) t b c (m0 it) (m1 it)))
    as (a & d & Hl & Hr & Hcalc).
  rewrite Hcalc in Htan. cbn [curve between] in Htan. rewrite Hty in Htan.
  cbn [CurveType_eqb] in Htan.
  exists i, a, b, c, d, (between (curve it) t b c x y).
  split; [exact Hreset|].
  apply key_at_Ok in Hb, Hc.
  repeat (split; [assumption || reflexivity|]).
  inversion Htan. split; reflexivity.
Qed.

Lemma cardinal_stable_tangents_witness :
  exists i a b c d it',
    reset (num 2) (blank (four_keys CURVE_CARDINAL_STABLE) 0) = Ok it' /\
    nth_error (keys (four_keys CURVE_CARDINAL_STABLE)) i = Some b /\
    nth_error (keys (four_keys CURVE_CARDINAL_STABLE)) (i + 1) = Some c /\
    left it' = ktime b /\ right it' = ktime c /\
    (ktime b <=? num 2) = true /\ (num 2 <? ktime c) = true /\
    left_neighbour (keys (four_keys CURVE_CARDINAL_STABLE)) i = Some a /\
    right_neighbour (keys (four_keys CURVE_CARDINAL_STABLE)) i = Some d /\
    m0 it' = JS.half
             * guarded (2 * (ktime c - ktime b) / (ktime c - ktime a))
             * (kvalue c - kvalue a) /\
    m1 it' = JS.half
             * guarded (2 * (ktime c - ktime b) / (ktime d - ktime b))
             * (kvalue d - kvalue b).
Proof.
  apply (cardinal_stable_tangents (num 2)
           (blank (four_keys CURVE_CARDINAL_STABLE) 0) (key 0 0) (key 7 1));
    reflexivity.
Defined.

(** * What [reset] reads of the iterator *)

Section Prior.

Variable t : Num.

(** [reset] reads the curve and the two tangents, nothing else. *)
Lemma reset_reads (it1 it2 : Iterator) :
  curve it1 = curve it2 ->
  reset t it2 = reset t (set_tangents (m0 it2) (m1 it2) it1).
Proof.
  destruct it1, it2. cbn. intros ->. reflexivity.
Qed.

Lemma isHermite_curve (it1 it2 : Iterator) :
  curve it1 = curve it2 -> _isHermite it1 = _isHermite it2.
Proof. unfold _isHermite. intros ->. reflexivity. Qed.

(** Other tangents in the iterator change the outcome of [reset] in the
    tangents only, and only where [reset] does not compute them. *)
Lemma reset_set_tangents (it : Iterator) (a b : Num) :
  match reset t it with
  | Ok r =>
      (reset t (set_tangents a b it) = Ok r /\
       (_isHermite it = true \/ (m0 r = 0 /\ m1 r = 0))) \/
      (_isHermite it = false /\ m0 r = m0 it /\ m1 r = m1 it /\
       reset t (set_tangents a b it) = Ok (set_tangents a b r))
  | Throw e => reset t (set_tangents a b it) = Throw e
  end.
Proof.
  unfold reset. cbn [curve set_tangents m0 m1].
  destruct (Nat.eqb (List.length (keys (curve it))) 0); [left; split; [reflexivity | right; split; reflexivity]|].
  destruct (key_at (keys (curve it)) 0) as [first|]; [|reflexivity].
  cbn [bind].
  destruct (t <? ktime first); [left; split; [reflexivity | right; split; reflexivity]|].
  destruct (key_at (keys (curve it)) (List.length (keys (curve it)) - 1))
    as [last|]; [|reflexivity].
  cbn [bind].
  destruct (t >=? ktime last); [left; split; [reflexivity | right; split; reflexivity]|].
  destruct (scan t (tl (keys (curve it))) 0) as [i|]; [|reflexivity].
  cbn [bind].
  destruct (key_at (keys (curve it)) i) as [kl|]; [|reflexivity].
  cbn [bind].
  destruct (key_at (keys (curve it)) (i + 1)) as [kr|]; [|reflexivity].
  cbn [bind]. cbv zeta.
  change (_isHermite
            {| curve := curve it; time_ := t; left := ktime kl;
               right := ktime kr;
               recip := if JS.isFinite (1 / (ktime kr - ktime kl))
                        then 1 / (ktime kr - ktime kl) else 0;
               p0 := kvalue kl; p1 := kvalue kr; m0 := a; m1 := b |})
    with (_isHermite it).
  change (_isHermite
            {| curve := curve it; time_ := t; left := ktime kl;
               right := ktime kr;
               recip := if JS.isFinite (1 / (ktime kr - ktime kl))
                        then 1 / (ktime kr - ktime kl) else 0;
               p0 := kvalue kl; p1 := kvalue kr; m0 := m0 it; m1 := m1 it |})
    with (_isHermite it).
  destruct (_isHermite it).
  - match goal with
    | |- match ?x with _ => _ end =>
        change (_calcTangents (keys (curve it)) i
                  {| curve := curve it; time_ := t; left := ktime kl;
                     right := ktime kr;
                     recip := if JS.isFinite (1 / (ktime kr - ktime kl))
                              then 1 / (ktime kr - ktime kl) else 0;
                     p0 := kvalue kl; p1 := kvalue kr; m0 := a; m1 := b |})
          with x;
        destruct x; [left; split; [reflexivity | left; reflexivity] | reflexivity]
    end.
  - right. repeat split.
Qed.

End Prior.

(** [evaluate] reads the tangents for the Hermite kinds only. *)
Lemma evaluate_set_tangents (it : Iterator) (a b : Num) :
  _isHermite it = false -> evaluate (set_tangents a b it) = evaluate it.
Proof.
  unfold _isHermite, evaluate. cbn [curve set_tangents].
  destruct (type (curve it)); cbn; intros H; try discriminate; reflexivity.
Qed.

Lemma set_tangents_same (it : Iterator) :
  set_tangents (m0 it) (m1 it) it = it.
Proof. destruct it. reflexivity. Qed.

(** C6, as the code has it.  For two iterators of one curve, [reset(t)]
    leaves the same [time_], [left], [right], [recip], [p0] and [p1] and the
    same output of [evaluate()], whatever their states before.  The whole
    cached state is the same when the curve is of a Hermite kind or the two
    agreed on [m0] and [m1] before (as iterators do that have seen this curve
    only, where both are 0 for the other kinds).  A second [reset(t)] in a
    row leaves the state as the first one left it. *)
Theorem reset_prior_state (t : Num) (it1 it2 : Iterator) :
  curve it1 = curve it2 ->
  match reset t it1, reset t it2 with
  | Ok r1, Ok r2 => same_span r1 r2 /\ evaluate r1 = evaluate r2
  | Throw e1, Throw e2 => e1 = e2
  | _, _ => False
  end /\
  (_isHermite it1 = true \/ (m0 it1 = m0 it2 /\ m1 it1 = m1 it2) ->
   reset t it1 = reset t it2) /\
  (forall r, reset t it1 = Ok r -> reset t r = Ok r).
Proof.
  intros Hc.
  pose proof (reset_set_tangents t it1 (m0 it2) (m1 it2)) as Hrel.
  rewrite <- (reset_reads t it1 it2 Hc) in Hrel.
  split; [|split].
  - destruct (reset t it1) as [r1|e1] eqn:E1.
    + destruct Hrel as [(-> & _) | (Hh & _ & _ & ->)].
      * split; [repeat split | reflexivity].
      * split; [repeat split|].
        symmetry. apply evaluate_set_tangents.
        rewrite (isHermite_curve r1 it1); [exact Hh|].
        apply (reset_time_curve t it1 r1 E1).
    + rewrite Hrel. reflexivity.
  - intros [Hh | (Hm0 & Hm1)].
    + destruct (reset t it1) as [r1|e1] eqn:E1.
      * destruct Hrel as [(-> & _) | (Hh' & _)]; [reflexivity | congruence].
      * rewrite Hrel. reflexivity.
    + rewrite (reset_reads t it1 it2 Hc), <- Hm0, <- Hm1, set_tangents_same.
      reflexivity.
  - intros r Hr.
    assert (Hcr : curve it1 = curve r)
      by (symmetry; apply (reset_time_curve t it1 r Hr)).
    rewrite (reset_reads t it1 r Hcr).
    pose proof (reset_set_tangents t it1 (m0 r) (m1 r)) as Hrel'.
    rewrite Hr in Hrel'.
    destruct Hrel' as [(-> & _) | (_ & _ & _ & ->)]; [reflexivity|].
    rewrite set_tangents_same. reflexivity.
Qed.

Lemma reset_prior_state_witness :
  match reset (num 2) stale, reset (num 2) (blank (four_keys CURVE_LINEAR) 0) with
  | Ok r1, Ok r2 => same_span r1 r2 /\ evaluate r1 = evaluate r2
  | Throw e1, Throw e2 => e1 = e2
  | _, _ => False
  end.
Proof.
  apply (reset_prior_state (num 2) stale (blank (four_keys CURVE_LINEAR) 0)).
  reflexivity.
Defined.

(** C6 as stated fails: the state after [reset(2)] depends on the state
    before.  On the linear curve of four keys, an iterator that holds
    tangents from the time the curve was a cardinal one keeps them, and a new
    iterator has 0 there. *)
Lemma reset_keeps_stale_tangents :
  curve stale = curve (blank (four_keys CURVE_LINEAR) 0) /\
  reset (num 2) stale <> reset (num 2) (blank (four_keys CURVE_LINEAR) 0).
Proof.
  split; [reflexivity|].
  vm_compute. intros H. discriminate H.
Qed.

(** * [evaluate] *)

Section Finite.

Lemma isFinite_Fin (x : Num) : JS.isFinite x = true -> exists q, x = Fin q.
Proof. destruct x; try discriminate. eauto. Qed.

Lemma isFinite_guarded (s : Num) : JS.isFinite (guarded s) = true.
Proof. unfold guarded. destruct (JS.isFinite s) eqn:E; [exact E | reflexivity]. Qed.

(** [_evaluateHermite] computes the cubic Hermite basis of the
    specification. *)
Lemma evaluateHermite_basis (p0 p1 m0 m1 t : Q) :
  exists q,
    _evaluateHermite (Fin p0) (Fin p1) (Fin m0) (Fin m1) (Fin t) = Fin q /\
    (q == hermite_basis p0 p1 m0 m1 t)%Q.
Proof.
  eexists. split; [reflexivity|].
  rewrite !Qred_correct. unfold hermite_basis. ring.
Qed.

End Finite.

(** [evaluate] for the kinds that are not Hermite ones. *)
Lemma evaluate_not_hermite (it : Iterator) :
  _isHermite it = false ->
  evaluate it =
  Ok (match type (curve it) with
      | CURVE_STEP => p0 it
      | CURVE_SMOOTHSTEP =>
          lerp (p0 it) (p1 it)
               (normalized it * normalized it * (3 - 2 * normalized it))
      | _ => lerp (p0 it) (p1 it) (normalized it)
      end).
Proof.
  unfold _isHermite, evaluate, normalized.
  destruct (type (curve it)); cbn; intros H; try discriminate; reflexivity.
Qed.

(** [evaluate] for the Hermite kinds: the method it calls is not there. *)
Lemma evaluate_hermite (it : Iterator) :
  _isHermite it = true ->
  evaluate it = Throw (TypeError "_evaluateHermite2 is not a function").
Proof.
  unfold _isHermite, evaluate.
  destruct (type (curve it)); cbn; intros H; try discriminate; reflexivity.
Qed.

(** C2 fails on the code.  For a curve of a Hermite kind, [evaluate()] calls
    [this._evaluateHermite2], which the prototype does not define (it defines
    [_evaluateHermite]): in every state the call raises a [TypeError] and no
    number is returned. *)
Theorem evaluate_hermite_throws (it : Iterator) :
  _isHermite it = true ->
  evaluate it = Throw (TypeError "_evaluateHermite2 is not a function").
Proof.
  intros Hh. unfold evaluate.
  assert (Hty : type (curve it) = CURVE_CATMULL \/
                type (curve it) = CURVE_CARDINAL \/
                type (curve it) = CURVE_CARDINAL_STABLE).
  { unfold _isHermite in Hh. destruct (type (curve it)); cbn in Hh;
      try discriminate; auto. }
  destruct Hty as [-> | [-> | ->]]; reflexivity.
Qed.

Lemma evaluate_hermite_throws_witness :
  (it <- fresh (two_keys CURVE_CATMULL) (num 5) ;; evaluate it)
  = Throw (TypeError "_evaluateHermite2 is not a function").
Proof.
  assert (E : fresh (two_keys CURVE_CATMULL) (num 5)
              = Ok (between (two_keys CURVE_CATMULL) (num 5) (key 0 0) (key 10 10)
                            (num 10) (num 10)))
    by reflexivity.
  rewrite E. cbn [bind].
  apply (evaluate_hermite_throws
           (between (two_keys CURVE_CATMULL) (num 5) (key 0 0) (key 10 10)
                    (num 10) (num 10))).
  reflexivity.
Defined.

(** C3 holds for the step, linear and smoothstep kinds and fails for the
    Hermite kinds.  With no keys, [reset(t)] leaves the span
    [(-Infinity, +Infinity)] with all values 0; [evaluate()] then returns 0,
    except for a curve of a Hermite kind, where it raises the [TypeError] of
    the undefined [_evaluateHermite2]. *)
Theorem evaluate_no_keys (t : Num) (it : Iterator) :
  keys (curve it) = [] ->
  reset t it = Ok (clamped (curve it) t NegInf PosInf 0) /\
  evaluate (clamped (curve it) t NegInf PosInf 0) =
  if _isHermite it
  then Throw (TypeError "_evaluateHermite2 is not a function")
  else Ok 0.
Proof.
  intros Hk. split; [apply reset_empty; exact Hk|].
  unfold _isHermite, evaluate. cbn [curve clamped].
  destruct (type (curve it)); reflexivity.
Qed.

Lemma evaluate_no_keys_witness :
  reset (num 3) (blank (no_keys CURVE_CARDINAL) 0)
  = Ok (clamped (no_keys CURVE_CARDINAL) (num 3) NegInf PosInf 0) /\
  evaluate (clamped (no_keys CURVE_CARDINAL) (num 3) NegInf PosInf 0)
  = Throw (TypeError "_evaluateHermite2 is not a function").
Proof.
  apply (evaluate_no_keys (num 3) (blank (no_keys CURVE_CARDINAL) 0)).
  reflexivity.
Defined.

(** * Iterators that follow their curve *)

(** The four outcomes of a [reset] that returns. *)
Lemma reset_inv (t : Num) (it s : Iterator) :
  let c := curve it in
  let ks := keys (curve it) in
  reset t it = Ok s ->
  (ks = [] /\ s = clamped c t NegInf PosInf 0) \/
  (exists first,
      key_at ks 0 = Ok first /\ (t <? ktime first) = true /\
      s = clamped c t NegInf (ktime first) (kvalue first)) \/
  (exists first last,
      key_at ks 0 = Ok first /\ key_at ks (List.length ks - 1) = Ok last /\
      (t <? ktime first) = false /\ (t >=? ktime last) = true /\
      s = clamped c t (ktime last) PosInf (kvalue last)) \/
  (exists first last i kl kr a b,
      key_at ks 0 = Ok first /\ key_at ks (List.length ks - 1) = Ok last /\
      (t <? ktime first) = false /\ (t >=? ktime last) = false /\
      scan t (tl ks) 0 = Ok i /\
      key_at ks i = Ok kl /\ key_at ks (i + 1) = Ok kr /\
      s = between c t kl kr a b /\
      if _isHermite it
      then _calcTangents ks i (between c t kl kr (m0 it) (m1 it)) = Ok s
      else a = m0 it /\ b = m1 it).
Proof.
  intros c ks H. subst c ks.
  destruct (keys (curve it)) as [|k0 ks'] eqn:Eks.
  - left. rewrite (reset_empty t it Eks) in H. inversion H. auto.
  - right. rewrite <- Eks in *.
    destruct (first_and_last it) as (first & last & Hfirst & Hlast);
      [rewrite Eks; discriminate|].
    destruct (t <? ktime first) eqn:Hb.
    + left. rewrite (reset_before t it first Hfirst Hb) in H. inversion H.
      exists first. auto.
    + right. destruct (t >=? ktime last) eqn:Ha.
      * left. rewrite (reset_after t it first last Hfirst Hlast Hb Ha) in H.
        inversion H. exists first, last. auto.
      * right.
        rewrite (reset_between t it first last Hfirst Hlast Hb Ha) in H.
        destruct (scan t (tl (keys (curve it))) 0) as [i|] eqn:Hscan;
          [|discriminate].
        cbn [bind] in H.
        destruct (key_at (keys (curve it)) i) as [kl|] eqn:Hkl; [|discriminate].
        cbn [bind] in H.
        destruct (key_at (keys (curve it)) (i + 1)) as [kr|] eqn:Hkr;
          [|discriminate].
        cbn [bind] in H. cbv zeta in H.
        destruct (_isHermite it) eqn:Hh.
        -- destruct (calcTangents_Ok (keys (curve it)) i
                       (between (curve it) t kl kr (m0 it) (m1 it)))
             as (a & b & Hab); [eapply key_at_length; exact Hkr|].
           assert (Es : s = between (curve it) t kl kr a b)
             by (rewrite Hab in H; inversion H; reflexivity).
           exists first, last, i, kl, kr, a, b. repeat split; auto.
        -- inversion H.
           exists first, last, i, kl, kr, (m0 it), (m1 it). repeat split; auto.
Qed.

(** The tangents are computed from the keys and the curve, not the time. *)
Lemma calcTangents_set_time_ (ks : list Key) (i : nat) (it r : Iterator) (t : Num) :
  _calcTangents ks i it = Ok r ->
  _calcTangents ks i (set_time_ t it) = Ok (set_time_ t r).
Proof.
  unfold _calcTangents. cbn [curve set_time_].
  repeat match goal with
         | |- bind ?x _ = _ -> _ => destruct x; [|discriminate]; cbn [bind]
         end.
  destruct (CurveType_eqb (type (curve it)) CURVE_CARDINAL_STABLE);
    intros H; inversion H; reflexivity.
Qed.

Section Synced.

Variable c : Curve.
Hypothesis Hinc : strictly_increasing (keys c) = true.

Lemma keys_numbers (k : Key) : In k (keys c) -> ktime k <> NaN.
Proof. apply increasing_number. exact Hinc. Qed.

Lemma key_at_number (i : nat) (k : Key) :
  key_at (keys c) i = Ok k -> ktime k <> NaN.
Proof.
  intros Hk. apply keys_numbers. apply key_at_Ok in Hk.
  eapply nth_error_In; exact Hk.
Qed.

Lemma key_at_le (i j : nat) (a b : Key) :
  key_at (keys c) i = Ok a -> key_at (keys c) j = Ok b -> (i <= j)%nat ->
  (ktime a <=? ktime b) = true.
Proof.
  intros Ha Hb. apply key_at_Ok in Ha, Hb.
  apply (increasing_le (keys c) i j a b Hinc Ha Hb).
Qed.

Lemma fresh_time_curve (t : Num) (s : Iterator) :
  fresh c t = Ok s -> time_ s = t /\ curve s = c.
Proof. intros H. apply reset_time_curve in H. exact H. Qed.

Lemma fresh_synced (t : Num) (s : Iterator) : fresh c t = Ok s -> synced s.
Proof.
  intros H. destruct (fresh_time_curve t s H) as (Ht & Hc).
  unfold synced. rewrite Ht, Hc. exact H.
Qed.


(** The ends of the span of a new iterator are numbers. *)
Lemma fresh_bounds (t : Num) (s : Iterator) :
  fresh c t = Ok s -> left s <> NaN /\ right s <> NaN.
Proof.
  intros H. apply reset_inv in H. cbn [curve blank] in H.
  destruct H as [(_ & ->) | [(first & Hf & _ & ->) |
                  [(first & last & _ & Hl & _ & _ & ->) |
                   (first & last & i & kl & kr & a & b & _ & _ & _ & _ & _
                    & Hkl & Hkr & -> & _)]]];
    cbn; split; try discriminate; eapply key_at_number; eassumption.
Qed.

(** [reset] of an iterator that follows the curve gives the new iterator. *)
Lemma synced_reset (it : Iterator) (t : Num) :
  curve it = c -> synced it -> reset t it = fresh c t.
Proof.
  intros Hc Hs. unfold synced in Hs. rewrite Hc in Hs.
  unfold fresh.
  rewrite (reset_reads t (blank c t) it) by (symmetry; exact Hc).
  pose proof (reset_set_tangents t (blank c t) (m0 it) (m1 it)) as Hrel.
  destruct (_isHermite it) eqn:Hh.
  - rewrite (isHermite_curve it (blank c t) Hc) in Hh.
    destruct (reset t (blank c t)) as [r|e].
    + destruct Hrel as [(-> & _) | (Hh' & _)]; [reflexivity | congruence].
    + exact Hrel.
  - pose proof (reset_set_tangents (time_ it) (blank c (time_ it)) 1 1) as Hz.
    unfold fresh in Hs. rewrite Hs in Hz.
    rewrite (isHermite_curve (blank c (time_ it)) it) in Hz
      by (symmetry; exact Hc).
    rewrite Hh in Hz.
    assert (Hm : m0 it = 0 /\ m1 it = 0).
    { destruct Hz as [(_ & [Hx | Hx]) | (_ & Hm0 & Hm1 & _)];
        [discriminate | exact Hx | split; assumption]. }
    destruct Hm as (-> & ->). reflexivity.
Qed.

(** A time inside the span of a new iterator has the same span. *)
Lemma span_stable (t1 t : Num) (s : Iterator) :
  fresh c t1 = Ok s ->
  (left s <=? t) = true -> (t <? right s) = true ->
  fresh c t = Ok (set_time_ t s).
Proof.
  intros H Hl Hr. unfold fresh in *.
  apply reset_inv in H. cbn [curve blank m0 m1] in H.
  destruct H as [(Hk & ->) | [(first & Hf & _ & ->) |
                  [(first & last & Hf & Hla & _ & _ & ->) |
                   (first & last & i & kl & kr & a & b & Hf & Hla & _ & _
                    & Hscan & Hkl & Hkr & -> & Htan)]]];
    cbn [left right clamped between] in Hl, Hr.
  - rewrite (reset_empty t (blank c t) Hk). reflexivity.
  - rewrite (reset_before t (blank c t) first Hf Hr). reflexivity.
  - assert (Hb : (t <? ktime first) = false).
    { apply geb_ltb. unfold JS.geb. eapply leb_trans; [|exact Hl].
      apply (key_at_le 0 (List.length (keys c) - 1)); auto. lia. }
    rewrite (reset_after t (blank c t) first last Hf Hla Hb Hl). reflexivity.
  - assert (Hi := key_at_length _ _ _ Hkr).
    assert (Hb : (t <? ktime first) = false).
    { apply geb_ltb. unfold JS.geb. eapply leb_trans; [|exact Hl].
      apply (key_at_le 0 i); auto. lia. }
    assert (Ha : (t >=? ktime last) = false).
    { apply ltb_geb. eapply ltb_leb_trans; [exact Hr|].
      apply (key_at_le (i + 1) (List.length (keys c) - 1)); auto. lia. }
    rewrite (reset_between t (blank c t) first last Hf Hla Hb Ha).
    cbn [curve blank m0 m1].
    assert (Hscan' : scan t (tl (keys c)) 0 = Ok i).
    { apply (scan_complete t (tl (keys c)) 0 i).
      - intros j Hj.
        destruct (key_at_in_range (keys c) (S j)) as (k & Hk); [lia|].
        exists k. rewrite nth_error_tl. split; [apply key_at_Ok; exact Hk|].
        unfold JS.geb. eapply leb_trans; [|exact Hl].
        apply (key_at_le (S j) i); auto.
      - exists kr. rewrite nth_error_tl. split.
        + apply key_at_Ok. replace (S i) with (i + 1)%nat by lia. exact Hkr.
        + apply ltb_geb. exact Hr. }
    rewrite Hscan'. cbn [bind]. rewrite Hkl. cbn [bind]. rewrite Hkr.
    cbn [bind]. cbv zeta.
    change (_isHermite (blank c t)) with (_isHermite (blank c t1)).
    destruct (_isHermite (blank c t1)).
    + apply (calcTangents_set_time_ _ _ _ _ t) in Htan. exact Htan.
    + destruct Htan as (-> & ->). reflexivity.
Qed.

Variable it : Iterator.
Hypothesis Hcurve : curve it = c.
Hypothesis Hsynced : synced it.

(** [value] brings the iterator to the state of a new one at that time. *)
Lemma value_synced (t : Num) :
  JS.isFinite t = true ->
  value t it = (s <- fresh c t ;; v <- evaluate s ;; Ok (v, s)).
Proof.
  intros Ht. unfold value.
  assert (Hs := Hsynced). unfold synced in Hs. rewrite Hcurve in Hs.
  destruct (fresh_bounds _ _ Hs) as (Hnl & Hnr).
  assert (Hnt : t <> NaN) by (apply isFinite_not_NaN; exact Ht).
  destruct ((t <? left it) || (t >=? right it)) eqn:Hout.
  - rewrite (synced_reset it t Hcurve Hsynced). reflexivity.
  - apply orb_false_iff in Hout. destruct Hout as (Hl & Hr).
    rewrite (span_stable (time_ it) t it Hs).
    + reflexivity.
    + apply (not_ltb_geb _ _ Hnt Hnl Hl).
    + apply (not_geb_ltb _ _ Hnt Hnr Hr).
Qed.


End Synced.

(** The constructor gives the new iterator at [time || 0]. *)
Lemma CurveIterator_fresh (c : Curve) (time : option Num) (it : Iterator) :
  CurveIterator c time = Ok it ->
  fresh c (time_ it) = Ok it /\ curve it = c /\ time_ it <> NaN /\
  (forall t, time = Some t -> JS.isFinite t = true -> JS.isFinite (time_ it) = true).
Proof.
  unfold CurveIterator. intros H.
  destruct (reset_time_curve _ _ _ H) as (Ht & Hc). cbn [curve] in Hc.
  split; [|split; [exact Hc|split]].
  - unfold fresh. rewrite Ht. exact H.
  - rewrite Ht. destruct time as [[| | |q]|]; cbn; try discriminate.
    destruct (JS.Qeqb q 0); discriminate.
  - intros t -> Hfin. rewrite Ht. destruct t; try discriminate.
    cbn. destruct (JS.Qeqb q 0); reflexivity.
Qed.





(** * Values between and outside the keys *)

Section Values.

Lemma lerp_Fin (a b n : Q) :
  exists q, lerp (Fin a) (Fin b) (Fin n) = Fin q /\ (q == a + (b - a) * n)%Q.
Proof.
  eexists. split; [reflexivity|]. rewrite !Qred_correct. reflexivity.
Qed.

(** The normalized parameter between two keys is the fraction of the span
    that lies before the time. *)
Lemma normalized_between (c : Curve) (t l r vl vr : Q) (a b : Num) :
  (l < r)%Q ->
  exists n,
    normalized (between c (Fin t) (Fin l, Fin vl) (Fin r, Fin vr) a b) = Fin n /\
    (n == (t - l) / (r - l))%Q.
Proof.
  intros Hlr. unfold normalized, between, guarded.
  cbn [recip time_ left ktime fst].
  cbn -[Qred Qplus Qminus Qmult Qdiv Qopp Qinv].
  destruct (JS.Qeqb (Qred (r - l)) 0) eqn:E0.
  { q_reflect. lra. }
  cbn -[Qred Qplus Qminus Qmult Qdiv Qopp Qinv].
  destruct (JS.Qeqb (Qred (1 / Qred (r - l))) 0) eqn:E1.
  { exfalso. q_reflect.
    assert (H : ((1 / (r - l)) * (r - l) == 1)%Q) by (field; lra).
    rewrite E1 in H. lra. }
  eexists. split; [reflexivity|].
  rewrite !Qred_correct. field. lra.
Qed.

End Values.

(** What [reset] leaves at a finite time on keys with finite times and
    values: a constant span outside the keys, or the span between the two
    adjacent keys around the time. *)
Lemma reset_finite_shape (t : Q) (it : Iterator) :
  let ks := keys (curve it) in
  Forall (fun k => finite_key k = true) ks ->
  exists it',
    reset (Fin t) it = Ok it' /\
    ((ks = [] /\ it' = clamped (curve it) (Fin t) NegInf PosInf 0) \/
     (exists l v,
         key_at ks 0 = Ok (Fin l, Fin v) /\ (t < l)%Q /\
         it' = clamped (curve it) (Fin t) NegInf (Fin l) (Fin v)) \/
     (exists l v,
         key_at ks (List.length ks - 1) = Ok (Fin l, Fin v) /\ (l <= t)%Q /\
         it' = clamped (curve it) (Fin t) (Fin l) PosInf (Fin v)) \/
     (exists i l vl r vr a b,
         key_at ks i = Ok (Fin l, Fin vl) /\
         key_at ks (i + 1) = Ok (Fin r, Fin vr) /\
         (l <= t)%Q /\ (t < r)%Q /\
         it' = between (curve it) (Fin t) (Fin l, Fin vl) (Fin r, Fin vr) a b)).
Proof.
  intros ks Hfin. subst ks.
  assert (Hkey : forall i k, key_at (keys (curve it)) i = Ok k ->
                             exists l v, k = (Fin l, Fin v)).
  { intros i [kt kv] Hk. apply key_at_Ok, nth_error_In in Hk.
    rewrite Forall_forall in Hfin. apply Hfin in Hk.
    unfold finite_key in Hk. apply andb_true_iff in Hk. cbn in Hk.
    destruct Hk as (H1 & H2).
    destruct kt; try discriminate. destruct kv; try discriminate. eauto. }
  assert (Hnum : Forall (fun k => ktime k <> NaN) (keys (curve it))).
  { rewrite Forall_forall in *. intros k Hk. apply Hfin in Hk.
    unfold finite_key in Hk. apply andb_true_iff in Hk.
    apply isFinite_not_NaN. tauto. }
  destruct (reset_Ok_span (Fin t) it Hnum) as (it' & Hreset & _);
    [discriminate|].
  exists it'. split; [exact Hreset|].
  apply reset_inv in Hreset.
  destruct Hreset as [(Hk & ->) | [(first & Hf & Hb & ->) |
                    [(first & last & _ & Hl & _ & Ha & ->) |
                     (first & last & i & kl & kr & a & b & Hf & _ & Hb & _
                      & Hscan & Hkl & Hkr & -> & _)]]].
  - left. auto.
  - right. left. destruct (Hkey _ _ Hf) as (l & v & ->).
    exists l, v. cbn in Hb. q_reflect. auto.
  - right. right. left. destruct (Hkey _ _ Hl) as (l & v & ->).
    exists l, v. unfold JS.geb in Ha. cbn in Ha. q_reflect. auto.
  - right. right. right.
    destruct (scan_span (Fin t) (keys (curve it)) first kl kr i) as (Hle & Hlt);
      auto; try discriminate.
    { rewrite Forall_forall in Hnum. exact Hnum. }
    destruct (Hkey _ _ Hkl) as (l & vl & ->).
    destruct (Hkey _ _ Hkr) as (r & vr & ->).
    cbn in Hle, Hlt. q_reflect.
    exists i, l, vl, r, vr, a, b. auto.
Qed.

(** C4 fails for the Hermite kinds.  On keys with finite times and values
    and at a finite time, [reset] returns and the cached [recip] is finite
    (the division is replaced by 0 when it is not finite), and a step curve
    evaluates to a finite number, the value of a key; for a curve of a
    Hermite kind [evaluate()] returns no number: it raises the [TypeError]
    of the undefined [_evaluateHermite2].  (Nothing is stated for the linear
    and smoothstep kinds, whose [lerp] can overflow on doubles.) *)
Theorem evaluate_finite_keys (t : Num) (it : Iterator) :
  Forall (fun k => finite_key k = true) (keys (curve it)) ->
  JS.isFinite t = true ->
  exists it',
    reset t it = Ok it' /\
    JS.isFinite (recip it') = true /\
    (type (curve it) = CURVE_STEP -> exists q, evaluate it' = Ok (Fin q)) /\
    (_isHermite it = true ->
     evaluate it' = Throw (TypeError "_evaluateHermite2 is not a function")).
Proof.
  intros Hfin Ht.
  destruct (isFinite_Fin t Ht) as (q & ->).
  destruct (reset_finite_shape q it Hfin) as (it' & Hreset & Hshape).
  exists it'. split; [exact Hreset|].
  assert (Hc : curve it' = curve it) by (apply (reset_time_curve _ _ _ Hreset)).
  assert (Hfields : JS.isFinite (recip it') = true /\ exists v, p0 it' = Fin v).
  { destruct Hshape as [(_ & ->) | [(l & v & _ & _ & ->) |
                      [(l & v & _ & _ & ->) |
                       (i & l & vl & r & vr & a & b & _ & _ & _ & _ & ->)]]];
      cbn [recip p0 clamped between kvalue snd];
      (split; [try reflexivity; apply isFinite_guarded
             | eexists; reflexivity]). }
  destruct Hfields as (Hrecip & v & Hp0).
  split; [exact Hrecip|]. split.
  - intros Hty. exists v. rewrite <- Hc in Hty.
    rewrite (evaluate_step it' Hty), Hp0. reflexivity.
  - intros Hh. apply evaluate_hermite.
    rewrite (isHermite_curve it' it Hc). exact Hh.
Qed.

Lemma evaluate_finite_keys_witness :
  exists it',
    reset (num 2) (blank (four_keys CURVE_CARDINAL_STABLE) 0) = Ok it' /\
    evaluate it' = Throw (TypeError "_evaluateHermite2 is not a function").
Proof.
  destruct (evaluate_finite_keys (num 2)
              (blank (four_keys CURVE_CARDINAL_STABLE) 0))
    as (it' & Hreset & _ & _ & Hthrow).
  - repeat constructor.
  - reflexivity.
  - exists it'. split; [exact Hreset|]. apply Hthrow. reflexivity.
Defined.

(** C10, as the code has it.  For every curve whose key times are numbers
    and every finite time [t], [reset(t)] returns and leaves
    [left <= time_ < right], with [time_ = t] and the span of the case at
    hand: [(-Infinity, +Infinity)] for the empty curve; [left = -Infinity]
    and [right] the time of the first key, which is greater than [t], when
    [t] is before the first key; [left] the time of the last key and
    [right = +Infinity] when [t] is at or past the last key; and the times
    of two adjacent keys otherwise. *)
Theorem reset_span_invariant (t : Num) (it : Iterator) :
  let ks := keys (curve it) in
  Forall (fun k => ktime k <> NaN) ks ->
  JS.isFinite t = true ->
  exists it',
    reset t it = Ok it' /\ time_ it' = t /\
    (left it' <=? time_ it') = true /\ (time_ it' <? right it') = true /\
    ((ks = [] /\ left it' = NegInf /\ right it' = PosInf) \/
     (exists first,
         key_at ks 0 = Ok first /\ (t <? ktime first) = true /\
         left it' = NegInf /\ right it' = ktime first) \/
     (exists first last,
         key_at ks 0 = Ok first /\ key_at ks (List.length ks - 1) = Ok last /\
         (t <? ktime first) = false /\ (t >=? ktime last) = true /\
         left it' = ktime last /\ right it' = PosInf) \/
     (exists first last i kl kr,
         key_at ks 0 = Ok first /\ key_at ks (List.length ks - 1) = Ok last /\
         (t <? ktime first) = false /\ (t >=? ktime last) = false /\
         key_at ks i = Ok kl /\ key_at ks (i + 1) = Ok kr /\
         left it' = ktime kl /\ right it' = ktime kr)).
Proof.
  intros ks Hnum Hfin. subst ks.
  destruct (reset_Ok_span t it Hnum (isFinite_not_NaN t Hfin))
    as (it' & Hreset & Htime & Hleft & Hright).
  exists it'. rewrite Htime.
  split; [exact Hreset|]. split; [reflexivity|]. split; [exact Hleft|].
  split.
  { destruct Hright as [Hright | Hinf]; [exact Hright|].
    rewrite Hinf in Hfin. discriminate. }
  apply reset_inv in Hreset.
  destruct Hreset as [(Hk & ->) | [(first & Hf & Hb & ->) |
                    [(first & last & Hf & Hl & Hb & Ha & ->) |
                     (first & last & i & kl & kr & a & b & Hf & Hl & Hb & Ha
                      & _ & Hkl & Hkr & -> & _)]]].
  - left. cbn. auto.
  - right. left. exists first. cbn. auto.
  - right. right. left. exists first, last. cbn. repeat split; assumption.
  - right. right. right. exists first, last, i, kl, kr. cbn.
    repeat split; assumption.
Qed.

Lemma reset_span_invariant_witness :
  exists it',
    reset (num (-3)) (blank (four_keys CURVE_LINEAR) 0) = Ok it' /\
    time_ it' = num (-3) /\
    (left it' <=? time_ it') = true /\ (time_ it' <? right it') = true /\
    left it' = NegInf /\ right it' = num 0.
Proof.
  destruct (reset_span_invariant (num (-3)) (blank (four_keys CURVE_LINEAR) 0))
    as (it' & Hreset & Htime & Hleft & Hright & Hcase).
  - repeat constructor; discriminate.
  - reflexivity.
  - exists it'. repeat (split; [assumption|]).
    assert (E : reset (num (-3)) (blank (four_keys CURVE_LINEAR) 0)
                = Ok (clamped (four_keys CURVE_LINEAR) (num (-3)) NegInf
                              (num 0) (num 0))) by reflexivity.
    rewrite E in Hreset. inversion Hreset. split; reflexivity.
Defined.

(** C10 as stated fails on a curve with a key whose time is [NaN].  On the
    keys (0, 0), (NaN, 1), (10, 2), [reset(5)] is neither before the first
    key nor at or past the last one; the scan stops at once, since
    [5 >= NaN] is false, and leaves [left = 0] and [right = NaN], so
    [time_ < right] is false. *)
Lemma reset_span_fails_on_NaN_key :
  exists it',
    reset (num 5) (blank (nan_key CURVE_LINEAR) 0) = Ok it' /\
    time_ it' = num 5 /\ left it' = num 0 /\ right it' = NaN /\
    (time_ it' <? right it') = false.
Proof. eexists. repeat split. Qed.

(** [evaluate] on a constant span: the constant. *)
Lemma evaluate_clamped (c : Curve) (t l r : Num) (v : Q) :
  _isHermite (blank c 0) = false ->
  exists q, evaluate (clamped c t l r (Fin v)) = Ok (Fin q) /\ (q == v)%Q.
Proof.
  intros Hh.
  rewrite (evaluate_not_hermite (clamped c t l r (Fin v))) by exact Hh.
  cbn [curve clamped p0 p1].
  assert (Hn : normalized (clamped c t l r (Fin v)) = 0) by reflexivity.
  rewrite Hn.
  destruct (type c); eexists; (split; [reflexivity|]);
    rewrite ?Qred_correct; ring.
Qed.

(** [evaluate] between two keys, for the kinds that are not Hermite ones. *)
Lemma evaluate_between (c : Curve) (t l r vl vr : Q) (a b : Num) :
  _isHermite (blank c 0) = false ->
  (l < r)%Q ->
  exists q,
    evaluate (between c (Fin t) (Fin l, Fin vl) (Fin r, Fin vr) a b)
    = Ok (Fin q) /\
    (q == match type c with
          | CURVE_STEP => vl
          | CURVE_SMOOTHSTEP => vl + (vr - vl) * smoothstep ((t - l) / (r - l))
          | _ => vl + (vr - vl) * ((t - l) / (r - l))
          end)%Q.
Proof.
  intros Hh Hlr.
  rewrite (evaluate_not_hermite
             (between c (Fin t) (Fin l, Fin vl) (Fin r, Fin vr) a b))
    by exact Hh.
  destruct (normalized_between c t l r vl vr a b Hlr) as (n & -> & Hn).
  cbn [curve between p0 p1 kvalue snd].
  unfold smoothstep.
  destruct (type c); eexists; (split; [reflexivity|]);
    rewrite ?Qred_correct, ?Hn; try reflexivity; ring.
Qed.

Section Spans.

Variable c : Curve.
Hypothesis Hinc : strictly_increasing (keys c) = true.

(** Two keys at one time are one key. *)
Lemma key_time_unique (i j : nat) (l l' v v' : Q) :
  key_at (keys c) i = Ok (Fin l, Fin v) ->
  key_at (keys c) j = Ok (Fin l', Fin v') ->
  (l == l')%Q -> i = j.
Proof.
  intros Hi Hj E. apply key_at_Ok in Hi, Hj.
  destruct (Nat.lt_trichotomy i j) as [H | [H | H]]; [|exact H|]; exfalso.
  - pose proof (increasing_lt (keys c) i j _ _ Hinc Hi Hj H) as Hlt.
    cbn in Hlt. q_reflect. lra.
  - pose proof (increasing_lt (keys c) j i _ _ Hinc Hj Hi H) as Hlt.
    cbn in Hlt. q_reflect. lra.
Qed.

(** Of two keys, the one with the smaller index has the smaller time. *)
Lemma key_at_le_Q (i j : nat) (l l' v v' : Q) :
  key_at (keys c) i = Ok (Fin l, Fin v) ->
  key_at (keys c) j = Ok (Fin l', Fin v') ->
  (i <= j)%nat -> (l <= l')%Q.
Proof.
  intros Hi Hj Hij.
  pose proof (key_at_le c Hinc i j _ _ Hi Hj Hij) as H.
  cbn in H. q_reflect. exact H.
Qed.

(** A time lies in one span of adjacent keys at most. *)
Lemma span_unique (t : Q) (i j : nat) (l vl r vr l' vl' r' vr' : Q) :
  key_at (keys c) i = Ok (Fin l, Fin vl) ->
  key_at (keys c) (i + 1) = Ok (Fin r, Fin vr) ->
  key_at (keys c) j = Ok (Fin l', Fin vl') ->
  key_at (keys c) (j + 1) = Ok (Fin r', Fin vr') ->
  (l <= t)%Q -> (t < r)%Q -> (l' <= t)%Q -> (t < r')%Q ->
  i = j.
Proof.
  intros Hi Hi1 Hj Hj1 Hl Hr Hl' Hr'.
  destruct (Nat.lt_trichotomy i j) as [H | [H | H]]; [|exact H|]; exfalso.
  - assert (r <= l')%Q by (apply (key_at_le_Q (i + 1) j _ _ _ _ Hi1 Hj); lia).
    lra.
  - assert (r' <= l)%Q by (apply (key_at_le_Q (j + 1) i _ _ _ _ Hj1 Hi); lia).
    lra.
Qed.

End Spans.

(** X1. For a curve of a kind that is not a Hermite one, with finite first
    and last keys: before the time of the first key [evaluate()] after
    [reset(t)] gives the value of the first key, and at or after the time of
    the last key the value of the last key. *)
Theorem evaluate_outside_keys (t l0 v0 l1 v1 : Q) (it : Iterator) :
  let ks := keys (curve it) in
  _isHermite it = false ->
  key_at ks 0 = Ok (Fin l0, Fin v0) ->
  key_at ks (List.length ks - 1) = Ok (Fin l1, Fin v1) ->
  (t < l0 \/ l1 <= t)%Q ->
  exists it' q,
    reset (Fin t) it = Ok it' /\ evaluate it' = Ok (Fin q) /\
    (q == if Qlt_le_dec t l0 then v0 else v1)%Q.
Proof.
  intros ks Hh Hfirst Hlast Hout. subst ks.
  destruct (Qlt_le_dec t l0) as [Hb | Hnb].
  - destruct (evaluate_clamped (curve it) (Fin t) NegInf (Fin l0) v0 Hh)
      as (q & Hq & E).
    exists (clamped (curve it) (Fin t) NegInf (Fin l0) (Fin v0)), q.
    split; [|split; assumption].
    apply (reset_before (Fin t) it _ Hfirst). cbn. q_reflect. exact Hb.
  - assert (Ha : (l1 <= t)%Q) by (destruct Hout; [lra | assumption]).
    destruct (evaluate_clamped (curve it) (Fin t) (Fin l1) PosInf v1 Hh)
      as (q & Hq & E).
    exists (clamped (curve it) (Fin t) (Fin l1) PosInf (Fin v1)), q.
    split; [|split; assumption].
    apply (reset_after (Fin t) it _ _ Hfirst Hlast).
    + cbn. q_reflect. exact Hnb.
    + unfold JS.geb. cbn. q_reflect. exact Ha.
Qed.

Lemma evaluate_outside_keys_witness :
  exists it' q,
    reset (num 15) (blank (two_keys CURVE_LINEAR) 0) = Ok it' /\
    evaluate it' = Ok (Fin q) /\ (q == 10)%Q.
Proof.
  apply (evaluate_outside_keys 15 0 0 10 10 (blank (two_keys CURVE_LINEAR) 0));
    try reflexivity.
  right. discriminate.
Defined.

(** The span [reset] finds on ordered keys is the one that holds the time. *)
Lemma reset_in_span (t l vl r vr : Q) (i : nat) (it : Iterator) :
  let ks := keys (curve it) in
  Forall (fun k => finite_key k = true) ks ->
  strictly_increasing ks = true ->
  key_at ks i = Ok (Fin l, Fin vl) ->
  key_at ks (i + 1) = Ok (Fin r, Fin vr) ->
  (l <= t)%Q -> (t < r)%Q ->
  exists a b,
    reset (Fin t) it
    = Ok (between (curve it) (Fin t) (Fin l, Fin vl) (Fin r, Fin vr) a b).
Proof.
  intros ks Hfin Hinc Hi Hi1 Hl Hr. subst ks.
  assert (Hlen := key_at_length _ _ _ Hi1).
  destruct (reset_finite_shape t it Hfin) as (it' & Hreset & Hshape).
  rewrite Hreset.
  destruct Hshape as [(Hk & _) | [(l0 & v & Hf & Hb & _) |
                    [(l1 & v & Hla & Ha & _) |
                     (j & l' & vl' & r' & vr' & a & b & Hj & Hj1 & Hl' & Hr'
                      & ->)]]].
  - rewrite Hk in Hlen. cbn in Hlen. lia.
  - exfalso.
    assert (l0 <= l)%Q
      by (apply (key_at_le_Q (curve it) Hinc 0 i _ _ _ _ Hf Hi); lia).
    lra.
  - exfalso.
    assert (r <= l1)%Q
      by (apply (key_at_le_Q (curve it) Hinc (i + 1)
                   (List.length (keys (curve it)) - 1) _ _ _ _ Hi1 Hla); lia).
    lra.
  - assert (E : i = j)
      by (apply (span_unique (curve it) Hinc t i j l vl r vr l' vl' r' vr');
          assumption).
    subst j. rewrite Hi in Hj. rewrite Hi1 in Hj1.
    inversion Hj; inversion Hj1; subst. eauto.
Qed.

(** X2. Linear curves interpolate linearly.  On keys with finite times and
    values and strictly increasing times, for a time [t] between two adjacent
    keys [(l, vl)] and [(r, vr)], [l <= t < r], [evaluate()] after [reset(t)]
    gives [vl + (vr - vl) * (t - l) / (r - l)]. *)
Theorem linear_interpolation (t l vl r vr : Q) (i : nat) (it : Iterator) :
  let ks := keys (curve it) in
  type (curve it) = CURVE_LINEAR ->
  Forall (fun k => finite_key k = true) ks ->
  strictly_increasing ks = true ->
  key_at ks i = Ok (Fin l, Fin vl) ->
  key_at ks (i + 1) = Ok (Fin r, Fin vr) ->
  (l <= t)%Q -> (t < r)%Q ->
  exists it' q,
    reset (Fin t) it = Ok it' /\ evaluate it' = Ok (Fin q) /\
    (q == vl + (vr - vl) * ((t - l) / (r - l)))%Q.
Proof.
  intros ks Hty Hfin Hinc Hi Hi1 Hl Hr. subst ks.
  destruct (reset_in_span t l vl r vr i it Hfin Hinc Hi Hi1 Hl Hr)
    as (a & b & Hreset).
  assert (Hh : _isHermite (blank (curve it) 0) = false)
    by (unfold _isHermite; cbn [curve blank]; rewrite Hty; reflexivity).
  destruct (evaluate_between (curve it) t l r vl vr a b Hh) as (q & Hq & E);
    [lra|].
  rewrite Hty in E. eauto.
Qed.

Lemma linear_interpolation_witness :
  exists it' q,
    reset (num 2) (blank (four_keys CURVE_LINEAR) 0) = Ok it' /\
    evaluate it' = Ok (Fin q) /\
    (q == 2 + (3 - 2) * ((2 - 1) / (3 - 1)))%Q.
Proof.
  apply (linear_interpolation 2 1 2 3 3 1 (blank (four_keys CURVE_LINEAR) 0));
    try reflexivity.
  - repeat constructor.
  - discriminate.
Defined.

(** X3. Smoothstep curves interpolate by the remap [s * s * (3 - 2 * s)] of
    the fraction [s = (t - l) / (r - l)] of the span, under the conditions
    of X2. *)
Theorem smoothstep_interpolation (t l vl r vr : Q) (i : nat) (it : Iterator) :
  let ks := keys (curve it) in
  type (curve it) = CURVE_SMOOTHSTEP ->
  Forall (fun k => finite_key k = true) ks ->
  strictly_increasing ks = true ->
  key_at ks i = Ok (Fin l, Fin vl) ->
  key_at ks (i + 1) = Ok (Fin r, Fin vr) ->
  (l <= t)%Q -> (t < r)%Q ->
  exists it' q,
    reset (Fin t) it = Ok it' /\ evaluate it' = Ok (Fin q) /\
    (q == vl + (vr - vl) * smoothstep ((t - l) / (r - l)))%Q.
Proof.
  intros ks Hty Hfin Hinc Hi Hi1 Hl Hr. subst ks.
  destruct (reset_in_span t l vl r vr i it Hfin Hinc Hi Hi1 Hl Hr)
    as (a & b & Hreset).
  assert (Hh : _isHermite (blank (curve it) 0) = false)
    by (unfold _isHermite; cbn [curve blank]; rewrite Hty; reflexivity).
  destruct (evaluate_between (curve it) t l r vl vr a b Hh) as (q & Hq & E);
    [lra|].
  rewrite Hty in E. eauto.
Qed.

Lemma smoothstep_interpolation_witness :
  exists it' q,
    reset (num 2) (blank (four_keys CURVE_SMOOTHSTEP) 0) = Ok it' /\
    evaluate it' = Ok (Fin q) /\
    (q == 2 + (3 - 2) * smoothstep ((2 - 1) / (3 - 1)))%Q.
Proof.
  apply (smoothstep_interpolation 2 1 2 3 3 1
           (blank (four_keys CURVE_SMOOTHSTEP) 0));
    try reflexivity.
  - repeat constructor.
  - discriminate.
Defined.

Lemma finite_key_at (ks : list Key) (i : nat) (k : Key) :
  Forall (fun k => finite_key k = true) ks ->
  key_at ks i = Ok k ->
  exists l v, k = (Fin l, Fin v).
Proof.
  intros Hfin Hk. destruct k as [kt kv].
  apply key_at_Ok, nth_error_In in Hk.
  rewrite Forall_forall in Hfin. apply Hfin in Hk.
  unfold finite_key in Hk. apply andb_true_iff in Hk. cbn in Hk.
  destruct Hk as (H1 & H2).
  destruct kt; try discriminate. destruct kv; try discriminate. eauto.
Qed.

(** X4. In exact arithmetic, a curve of a kind that is not a Hermite one
    passes through its keys: on keys with finite times and values and
    strictly increasing times, [evaluate()] after [reset] at the time of a
    key gives the value of that key.  (On doubles the difference [p1 - p0]
    of two finite key values can overflow, and [lerp] then gives [NaN] at
    the first of the two keys.) *)
Theorem evaluate_at_key (l v : Q) (it : Iterator) :
  let ks := keys (curve it) in
  _isHermite it = false ->
  Forall (fun k => finite_key k = true) ks ->
  strictly_increasing ks = true ->
  In (Fin l, Fin v) ks ->
  exists it' q,
    reset (Fin l) it = Ok it' /\ evaluate it' = Ok (Fin q) /\ (q == v)%Q.
Proof.
  intros ks Hh Hfin Hinc Hin. subst ks.
  apply In_nth_error in Hin. destruct Hin as (j & Hj).
  apply key_at_Ok in Hj.
  assert (Hjlen := key_at_length _ _ _ Hj).
  destruct (Nat.eq_dec (j + 1) (List.length (keys (curve it)))) as [Elast | Hmid].
  - destruct (key_at_in_range (keys (curve it)) 0) as (first & Hfirst); [lia|].
    destruct (finite_key_at _ _ _ Hfin Hfirst) as (l0 & v0 & ->).
    assert (Hl0 : (l0 <= l)%Q)
      by (apply (key_at_le_Q (curve it) Hinc 0 j _ _ _ _ Hfirst Hj); lia).
    replace j with (List.length (keys (curve it)) - 1)%nat in Hj by lia.
    destruct (evaluate_clamped (curve it) (Fin l) (Fin l) PosInf v Hh)
      as (q & Hq & E).
    exists (clamped (curve it) (Fin l) (Fin l) PosInf (Fin v)), q.
    split; [|split; assumption].
    apply (reset_after (Fin l) it _ _ Hfirst Hj).
    + cbn. q_reflect. exact Hl0.
    + unfold JS.geb. cbn. q_reflect. lra.
  - destruct (key_at_in_range (keys (curve it)) (j + 1)) as (next & Hnext);
      [lia|].
    destruct (finite_key_at _ _ _ Hfin Hnext) as (r & vr & ->).
    assert (Hlr : (l < r)%Q).
    { assert (Hlt : (j < j + 1)%nat) by lia.
      pose proof Hj as Hj'. pose proof Hnext as Hnext'.
      apply key_at_Ok in Hj', Hnext'.
      pose proof (increasing_lt (keys (curve it)) j (j + 1)
                    (Fin l, Fin v) (Fin r, Fin vr) Hinc Hj' Hnext' Hlt) as H.
      cbn in H. q_reflect. exact H. }
    destruct (reset_in_span l l v r vr j it Hfin Hinc Hj Hnext) as (a & b & Hreset);
      [lra | exact Hlr |].
    destruct (evaluate_between (curve it) l l r v vr a b Hh Hlr) as (q & Hq & E).
    exists (between (curve it) (Fin l) (Fin l, Fin v) (Fin r, Fin vr) a b), q.
    split; [exact Hreset|]. split; [exact Hq|].
    rewrite E.
    assert (Hz : ((l - l) / (r - l) == 0)%Q) by (field; lra).
    unfold smoothstep. destruct (type (curve it)); rewrite ?Hz; ring.
Qed.

Lemma evaluate_at_key_witness :
  exists it' q,
    reset (num 3) (blank (four_keys CURVE_SMOOTHSTEP) 0) = Ok it' /\
    evaluate it' = Ok (Fin q) /\ (q == 3)%Q.
Proof.
  apply (evaluate_at_key 3 3 (blank (four_keys CURVE_SMOOTHSTEP) 0)).
  - reflexivity.
  - repeat constructor.
  - reflexivity.
  - right. right. left. reflexivity.
Defined.

(** * The cache is not seen *)

(** X6. [value] does not depend on what the iterator did before.  On a
    curve with strictly increasing key times, the values that a sequence of
    [value] calls at finite times returns on an iterator made by the
    constructor are the values that new iterators, one made at each of the
    times, evaluate to. *)
Theorem value_seq_fresh_values
        (c : Curve) (time0 : option Num) (times : list Num) (it : Iterator) :
  strictly_increasing (keys c) = true ->
  Forall (fun t => JS.isFinite t = true) times ->
  CurveIterator c time0 = Ok it ->
  value_seq it times = fresh_values c times.
Proof.
  intros Hinc Hfin Hit.
  destruct (CurveIterator_fresh c time0 it Hit) as (Hf & Hc & _).
  assert (Hs : synced it) by (unfold synced; rewrite Hc; exact Hf).
  clear Hit Hf. revert it Hc Hs.
  induction Hfin as [|t rest Ht Hrest IH]; intros it Hc Hs.
  - reflexivity.
  - cbn [value_seq fresh_values].
    rewrite (value_synced c Hinc it Hc Hs t Ht).
    destruct (fresh c t) as [s|e] eqn:Hfresh; [|reflexivity].
    cbn [bind].
    destruct (evaluate s) as [v|e]; [|reflexivity].
    cbn [bind fst snd].
    destruct (fresh_time_curve c t s Hfresh) as (_ & Hcs).
    rewrite (IH s Hcs (fresh_synced c t s Hfresh)). reflexivity.
Qed.

Lemma value_seq_fresh_values_witness :
  value_seq (between (four_keys CURVE_LINEAR) (num 2) (key 1 2) (key 3 3) 0 0)
            [num 5; num 1; num (-4); num 2]
  = fresh_values (four_keys CURVE_LINEAR) [num 5; num 1; num (-4); num 2].
Proof.
  apply (value_seq_fresh_values (four_keys CURVE_LINEAR) (Some (num 2))).
  - reflexivity.
  - repeat constructor.
  - reflexivity.
Defined.

(** * What the methods never do *)

Section Numbers.

Lemma ltb_NaN_l (x : Num) : (NaN <? x) = false.
Proof. reflexivity. Qed.

Lemma geb_NaN_l (x : Num) : (NaN >=? x) = false.
Proof. destruct x; reflexivity. Qed.

Lemma gtb_not_NaN_l (x y : Num) : (x >? y) = true -> x <> NaN.
Proof. unfold JS.gtb. num_order. Qed.

Lemma geb_not_NaN_l (x y : Num) : (x >=? y) = true -> x <> NaN.
Proof. unfold JS.geb. num_order. Qed.



End Numbers.

(** With key times that are numbers, [reset] at a time that is a number
    returns. *)
Lemma reset_Ok (t : Num) (it : Iterator) :
  Forall (fun k => ktime k <> NaN) (keys (curve it)) ->
  t <> NaN ->
  exists it', reset t it = Ok it' /\ time_ it' = t /\ curve it' = curve it.
Proof.
  intros Hnum Ht.
  destruct (reset_Ok_span t it Hnum Ht) as (it' & Hreset & Htime & _).
  exists it'. split; [exact Hreset|]. split; [exact Htime|].
  apply (reset_time_curve t it it' Hreset).
Qed.

(** X7. [advance] never raises: when the key times are numbers, it returns
    in every state and for every amount, [NaN] and the infinities included,
    with the time [time_ + amount] and the same curve. *)
Theorem advance_returns (amount : Num) (it : Iterator) :
  Forall (fun k => ktime k <> NaN) (keys (curve it)) ->
  exists it',
    advance amount it = Ok it' /\
    time_ it' = time_ it + amount /\ curve it' = curve it.
Proof.
  intros Hnum. unfold advance. cbn [time_ left right set_time_].
  destruct (amount >=? 0).
  - destruct (time_ it + amount >? right it) eqn:Hgt.
    + rewrite reset_set_time_. apply reset_Ok; [exact Hnum|].
      eapply gtb_not_NaN_l; exact Hgt.
    + eexists. split; [reflexivity|]. split; reflexivity.
  - destruct (time_ it + amount <? left it) eqn:Hlt.
    + rewrite reset_set_time_. apply reset_Ok; [exact Hnum|].
      eapply ltb_not_NaN_l; exact Hlt.
    + eexists. split; [reflexivity|]. split; reflexivity.
Qed.

Lemma advance_returns_witness :
  exists it',
    advance NaN (blank (four_keys CURVE_CATMULL) 0) = Ok it' /\
    time_ it' = 0 + NaN /\ curve it' = four_keys CURVE_CATMULL.
Proof.
  apply (advance_returns NaN (blank (four_keys CURVE_CATMULL) 0)).
  repeat constructor; discriminate.
Defined.

(** X8. [value] raises for the Hermite kinds and for nothing else: when the
    key times are numbers, in every state and for every time, [value(time)]
    returns a value and leaves the iterator at that time on the same curve,
    unless the curve is of a Hermite kind, where it raises the [TypeError]
    of the undefined [_evaluateHermite2]. *)
Theorem value_returns_unless_hermite (t : Num) (it : Iterator) :
  Forall (fun k => ktime k <> NaN) (keys (curve it)) ->
  if _isHermite it
  then value t it = Throw (TypeError "_evaluateHermite2 is not a function")
  else exists v it',
      value t it = Ok (v, it') /\ time_ it' = t /\ curve it' = curve it.
Proof.
  intros Hnum. unfold value.
  assert (Hstate : exists it',
             (if (t <? left it) || (t >=? right it) then reset t it
              else Ok (set_time_ t it)) = Ok it' /\
             time_ it' = t /\ curve it' = curve it).
  { destruct ((t <? left it) || (t >=? right it)) eqn:Hout.
    - apply reset_Ok; [exact Hnum|].
      apply orb_true_iff in Hout. destruct Hout as [H | H].
      + eapply ltb_not_NaN_l; exact H.
      + eapply geb_not_NaN_l; exact H.
    - eexists. split; [reflexivity|]. split; reflexivity. }
  destruct Hstate as (it' & -> & Htime & Hcurve). cbn [bind].
  rewrite <- (isHermite_curve it' it Hcurve).
  destruct (_isHermite it') eqn:Hh.
  - rewrite (evaluate_hermite it' Hh). reflexivity.
  - rewrite (evaluate_not_hermite it' Hh). cbn [bind]. eauto.
Qed.

Lemma value_returns_unless_hermite_witness :
  exists v it',
    value PosInf (blank (four_keys CURVE_SMOOTHSTEP) 0) = Ok (v, it') /\
    time_ it' = PosInf /\ curve it' = four_keys CURVE_SMOOTHSTEP.
Proof.
  apply (value_returns_unless_hermite PosInf (blank (four_keys CURVE_SMOOTHSTEP) 0)).
  repeat constructor; discriminate.
Defined.

(** X9. When [reset] raises.  With key times that are numbers, [reset(t)]
    raises exactly when [t] is [NaN] and the curve has one key: both tests
    against that key fail and the scan reads [keys[1]]. *)
Theorem reset_raises_iff (t : Num) (it : Iterator) :
  Forall (fun k => ktime k <> NaN) (keys (curve it)) ->
  (exists e, reset t it = Throw e) <->
  (t = NaN /\ List.length (keys (curve it)) = 1%nat).
Proof.
  intros Hnum. split.
  - intros (e & He).
    assert (Ht : t = NaN).
    { destruct (is_number t) eqn:En.
      - exfalso.
        destruct (reset_Ok_span t it Hnum) as (it' & Hreset & _);
          [destruct t; discriminate | congruence].
      - destruct t; try discriminate. reflexivity. }
    split; [exact Ht|]. subst t.
    destruct (keys (curve it)) as [|k0 [|k1 rest]] eqn:Eks; [| reflexivity |];
      exfalso.
    + rewrite (reset_empty NaN it Eks) in He. discriminate.
    + destruct (first_and_last it) as (first & last & Hfirst & Hlast);
        [rewrite Eks; discriminate|].
      rewrite (reset_between NaN it first last Hfirst Hlast
                 (ltb_NaN_l _) (geb_NaN_l _)) in He.
      rewrite Eks in He. cbn [tl scan] in He. rewrite geb_NaN_l in He.
      cbn [bind key_at nth_error Nat.add] in He. cbv zeta in He.
      destruct (_isHermite it).
      * destruct (calcTangents_Ok (k0 :: k1 :: rest) 0
                    (between (curve it) NaN k0 k1 (m0 it) (m1 it)))
          as (a & b & Hab); [cbn; lia|].
        rewrite Hab in He. discriminate.
      * discriminate.
  - intros (-> & Hlen).
    destruct (keys (curve it)) as [|k0 [|k1 rest]] eqn:Eks; try discriminate.
    destruct (first_and_last it) as (first & last & Hfirst & Hlast);
      [rewrite Eks; discriminate|].
    rewrite (reset_between NaN it first last Hfirst Hlast
               (ltb_NaN_l _) (geb_NaN_l _)).
    rewrite Eks. cbn. eauto.
Qed.

Lemma reset_raises_iff_witness :
  exists e, reset NaN (blank (one_key CURVE_LINEAR) 0) = Throw e.
Proof.
  apply (reset_raises_iff NaN (blank (one_key CURVE_LINEAR) 0)).
  - repeat constructor; discriminate.
  - split; reflexivity.
Defined.

(** X10. The constructor never raises on key times that are numbers, and
    never leaves the iterator at the time [NaN]: a start time that is
    missing, [NaN] or 0 becomes 0, every other one is kept. *)
Theorem CurveIterator_returns (c : Curve) (time : option Num) :
  Forall (fun k => ktime k <> NaN) (keys c) ->
  exists it,
    CurveIterator c time = Ok it /\ curve it = c /\ time_ it <> NaN /\
    time_ it = match time with
               | None | Some NaN => 0
               | Some t => if t === 0 then 0 else t
               end.
Proof.
  intros Hnum. unfold CurveIterator.
  set (t := match time with
            | Some t => if JS.falsy t then 0 else t
            | None => 0
            end).
  assert (Ht : t <> NaN).
  { unfold t. destruct time as [[| | |q]|]; cbn; try discriminate.
    destruct (JS.Qeqb q 0); discriminate. }
  destruct (reset_Ok t (blank c t) Hnum Ht) as (it & Hreset & Htime & Hcurve).
  exists it. split; [exact Hreset|]. split; [exact Hcurve|].
  rewrite Htime. split; [exact Ht|].
  unfold t. destruct time as [[| | |q]|]; reflexivity.
Qed.

Lemma CurveIterator_returns_witness :
  exists it,
    CurveIterator (four_keys CURVE_CARDINAL) (Some NaN) = Ok it /\
    curve it = four_keys CURVE_CARDINAL /\ time_ it <> NaN /\ time_ it = 0.
Proof.
  apply (CurveIterator_returns (four_keys CURVE_CARDINAL) (Some NaN)).
  repeat constructor; discriminate.
Defined.

(** * The span under [advance] *)




(** * The Hermite method *)

(** X12. [_evaluateHermite] computes the cubic Hermite polynomial
    [p0*(1+2t)*(1-t)^2 + m0*t*(1-t)^2 + p1*t^2*(3-2t) + m1*t^2*(t-1)] on
    finite arguments; at [t = 0] it gives [p0] and at [t = 1] it gives [p1],
    whatever the tangents. *)
Theorem evaluateHermite_polynomial (p0 p1 m0 m1 t : Q) :
  (exists q,
      _evaluateHermite (Fin p0) (Fin p1) (Fin m0) (Fin m1) (Fin t) = Fin q /\
      (q == hermite_basis p0 p1 m0 m1 t)%Q) /\
  (exists q,
      _evaluateHermite (Fin p0) (Fin p1) (Fin m0) (Fin m1) 0 = Fin q /\
      (q == p0)%Q) /\
  (exists q,
      _evaluateHermite (Fin p0) (Fin p1) (Fin m0) (Fin m1) 1 = Fin q /\
      (q == p1)%Q).
Proof.
  split; [|split]; eexists; (split; [reflexivity|]);
    rewrite !Qred_correct; unfold hermite_basis; ring.
Qed.

(** * Tangents of the other Hermite kinds *)

(** [reset] between the keys of a curve of a Hermite kind: the span and the
    tangents, in terms of the neighbours. *)
Lemma reset_hermite (t : Num) (it : Iterator) (first last : Key) :
  let ks := keys (curve it) in
  _isHermite it = true ->
  Forall (fun k => ktime k <> NaN) ks ->
  key_at ks 0 = Ok first ->
  key_at ks (List.length ks - 1) = Ok last ->
  (ktime first <=? t) = true ->
  (t <? ktime last) = true ->
  exists i a b c d it',
    reset t it = Ok it' /\
    key_at ks i = Ok b /\ key_at ks (i + 1) = Ok c /\
    (ktime b <=? t) = true /\ (t <? ktime c) = true /\
    left_neighbour ks i = Some a /\ right_neighbour ks i = Some d /\
    _calcTangents ks i (between (curve it) t b c (m0 it) (m1 it)) = Ok it'.
Proof.
  intros ks Hh Hnum Hfirst Hlast Hge Hlt. subst ks.
  assert (Ht : t <> NaN) by (eapply leb_not_NaN_r; exact Hge).
  assert (Hnb : (t <? ktime first) = false) by (apply geb_ltb; exact Hge).
  assert (Hna : (t >=? ktime last) = false) by (apply ltb_geb; exact Hlt).
  assert (Hlen : (2 <= List.length (keys (curve it)))%nat).
  { apply (between_two_keys t it first last Hfirst Hlast Hnb Hna Ht).
    eapply leb_not_NaN_l; exact Hge. }
  destruct (reset_between_Ok t it first last Hfirst Hlast Hnb Hna Hlen)
    as (i & b & c & x & y & Hscan & Hi & Hb & Hc & Hreset & Htan).
  rewrite Forall_forall in Hnum.
  destruct (scan_span t (keys (curve it)) first b c i Ht Hnum Hfirst Hnb
              Hscan Hb Hc) as (Hle & Hlt').
  rewrite Hh in Htan.
  destruct (calcTangents_neighbours (keys (curve it)) i b c Hb Hc
              (between (curve it) t b c (m0 it) (m1 it)))
    as (a & d & Hl & Hr & _).
  exists i, a, b, c, d, (between (curve it) t b c x y).
  repeat (split; [assumption|]). exact Htan.
Qed.

(** X13. For a [CURVE_CATMULL] or [CURVE_CARDINAL] curve whose key times are
    numbers and a time in the range of the keys, [reset] finds the span
    [b, c] that holds the time and sets [m0 = k * (c.v - a')] and
    [m1 = k * (d' - b.v)], where [a' = b.v + (a.v - b.v) * s1],
    [d' = c.v + (d.v - c.v) * s2], [s1 = (c.t - b.t) / (b.t - a.t)] and
    [s2 = (c.t - b.t) / (d.t - c.t)], each replaced by 0 when it is not
    finite; [k] is 0.5 for [CURVE_CATMULL] and the tension of the curve for
    [CURVE_CARDINAL]; [a] and [d] are the neighbours of the span, real or
    extrapolated. *)
Theorem catmull_cardinal_tangents (t : Num) (it : Iterator) (first last : Key) :
  let ks := keys (curve it) in
  let k := if CurveType_eqb (type (curve it)) CURVE_CATMULL then JS.half
           else tension (curve it) in
  type (curve it) = CURVE_CATMULL \/ type (curve it) = CURVE_CARDINAL ->
  Forall (fun k => ktime k <> NaN) ks ->
  key_at ks 0 = Ok first ->
  key_at ks (List.length ks - 1) = Ok last ->
  (ktime first <=? t) = true ->
  (t <? ktime last) = true ->
  exists i a b c d it',
    reset t it = Ok it' /\
    nth_error ks i = Some b /\ nth_error ks (i + 1) = Some c /\
    left it' = ktime b /\ right it' = ktime c /\
    (ktime b <=? t) = true /\ (t <? ktime c) = true /\
    left_neighbour ks i = Some a /\ right_neighbour ks i = Some d /\
    m0 it' = k * (kvalue c
                  - (kvalue b + (kvalue a - kvalue b)
                     * guarded ((ktime c - ktime b) / (ktime b - ktime a)))) /\
    m1 it' = k * (kvalue c + (kvalue d - kvalue c)
                  * guarded ((ktime c - ktime b) / (ktime d - ktime c))
                  - kvalue b).
Proof.
  intros ks k Hty Hnum Hfirst Hlast Hge Hlt. subst ks k.
  assert (Hh : _isHermite it = true)
    by (unfold _isHermite; destruct Hty as [-> | ->]; reflexivity).
  destruct (reset_hermite t it first last Hh Hnum Hfirst Hlast Hge Hlt)
    as (i & a & b & c & d & it' & Hreset & Hb & Hc & Hle & Hlt' & Hl & Hr & Htan).
  destruct (calcTangents_neighbours (keys (curve it)) i b c Hb Hc
              (between (curve it) t b c (m0 it) (m1 it)))
    as (a' & d' & Hl' & Hr' & Hcalc).
  rewrite Hl in Hl'. rewrite Hr in Hr'. inversion Hl'; inversion Hr'; subst a' d'.
  rewrite Hcalc in Htan. cbn [curve between] in Htan.
  exists i, a, b, c, d, it'. split; [exact Hreset|].
  apply key_at_Ok in Hb, Hc.
  destruct Hty as [Hty | Hty]; rewrite Hty in *; cbn [CurveType_eqb] in Htan;
    cbv zeta in Htan; inversion Htan; cbn; repeat split; assumption.
Qed.

Lemma catmull_cardinal_tangents_witness :
  exists i a b c d it',
    reset (num 2) (blank (four_keys CURVE_CARDINAL) 0) = Ok it' /\
    nth_error (keys (four_keys CURVE_CARDINAL)) i = Some b /\
    nth_error (keys (four_keys CURVE_CARDINAL)) (i + 1) = Some c /\
    left it' = ktime b /\ right it' = ktime c /\
    (ktime b <=? num 2) = true /\ (num 2 <? ktime c) = true /\
    left_neighbour (keys (four_keys CURVE_CARDINAL)) i = Some a /\
    right_neighbour (keys (four_keys CURVE_CARDINAL)) i = Some d /\
    m0 it' = JS.half
             * (kvalue c
                - (kvalue b + (kvalue a - kvalue b)
                   * guarded ((ktime c - ktime b) / (ktime b - ktime a)))) /\
    m1 it' = JS.half
             * (kvalue c + (kvalue d - kvalue c)
                * guarded ((ktime c - ktime b) / (ktime d - ktime c))
                - kvalue b).
Proof.
  apply (catmull_cardinal_tangents (num 2) (blank (four_keys CURVE_CARDINAL) 0)
           (key 0 0) (key 7 1)); try reflexivity.
  - right. reflexivity.
  - repeat constructor; discriminate.
Defined.

(** The ratio of two differences of finite times, when the second is not 0. *)
Lemma guarded_ratio (a b c d : Q) :
  ~ (c - d == 0)%Q ->
  exists s,
    guarded ((Fin a - Fin b) / (Fin c - Fin d)) = Fin s /\
    (s == (a - b) / (c - d))%Q.
Proof.
  intros Hnz. unfold guarded.
  cbn -[Qred Qplus Qminus Qmult Qdiv Qopp Qinv].
  destruct (JS.Qeqb (Qred (c - d)) 0) eqn:E0.
  { exfalso. q_reflect. contradiction. }
  cbn -[Qred Qplus Qminus Qmult Qdiv Qopp Qinv].
  eexists. split; [reflexivity|]. rewrite !Qred_correct. reflexivity.
Qed.

(** X14. On equally spaced keys the Catmull-Rom tangents are the central
    differences.  For a [CURVE_CATMULL] curve on keys with finite times and
    values and strictly increasing times, and a time in the span [b, c] of
    four consecutive keys [a], [b], [c], [d] with [b.t - a.t = c.t - b.t =
    d.t - c.t], [reset] sets [m0 = (c.v - a.v) / 2] and
    [m1 = (d.v - b.v) / 2]. *)
Theorem catmull_uniform_tangents
        (t ta va tb vb tc vc td vd : Q) (i : nat) (it : Iterator) :
  let ks := keys (curve it) in
  type (curve it) = CURVE_CATMULL ->
  Forall (fun k => finite_key k = true) ks ->
  strictly_increasing ks = true ->
  key_at ks i = Ok (Fin ta, Fin va) ->
  key_at ks (i + 1) = Ok (Fin tb, Fin vb) ->
  key_at ks (i + 2) = Ok (Fin tc, Fin vc) ->
  key_at ks (i + 3) = Ok (Fin td, Fin vd) ->
  (tb - ta == tc - tb)%Q -> (td - tc == tc - tb)%Q ->
  (tb <= t)%Q -> (t < tc)%Q ->
  exists it' q0 q1,
    reset (Fin t) it = Ok it' /\
    m0 it' = Fin q0 /\ m1 it' = Fin q1 /\
    (q0 == (vc - va) / 2)%Q /\ (q1 == (vd - vb) / 2)%Q.
Proof.
  intros ks Hty Hfin Hinc Ha Hb Hc Hd Eab Ecd Hl Hr. subst ks.
  assert (Hh : _isHermite it = true)
    by (unfold _isHermite; rewrite Hty; reflexivity).
  assert (Hnum : Forall (fun k => ktime k <> NaN) (keys (curve it))).
  { rewrite Forall_forall. intros k Hk.
    apply (increasing_number (keys (curve it)) k Hinc Hk). }
  assert (Hlen := key_at_length _ _ _ Hd).
  destruct (key_at_in_range (keys (curve it)) 0) as (first & Hfirst); [lia|].
  destruct (key_at_in_range (keys (curve it)) (List.length (keys (curve it)) - 1))
    as (last & Hlast); [lia|].
  destruct (finite_key_at _ _ _ Hfin Hfirst) as (l0 & v0 & ->).
  destruct (finite_key_at _ _ _ Hfin Hlast) as (l1 & v1 & ->).
  assert (Hl0 : (l0 <= tb)%Q)
    by (apply (key_at_le_Q (curve it) Hinc 0 (i + 1) _ _ _ _ Hfirst Hb); lia).
  assert (Hl1 : (tc <= l1)%Q)
    by (apply (key_at_le_Q (curve it) Hinc (i + 2)
                 (List.length (keys (curve it)) - 1) _ _ _ _ Hc Hlast); lia).
  destruct (reset_hermite (Fin t) it _ _ Hh Hnum Hfirst Hlast)
    as (j & a & b & c & d & it' & Hreset & Hjb & Hjc & Hle & Hlt & Hln & Hrn
        & Htan).
  { cbn. q_reflect. lra. }
  { cbn. q_reflect. lra. }
  destruct (finite_key_at _ _ _ Hfin Hjb) as (tb' & vb' & ->).
  destruct (finite_key_at _ _ _ Hfin Hjc) as (tc' & vc' & ->).
  cbn in Hle, Hlt. q_reflect.
  replace (i + 2)%nat with (i + 1 + 1)%nat in Hc by lia.
  assert (Ej : (i + 1)%nat = j)
    by (apply (span_unique (curve it) Hinc t (i + 1) j tb vb tc vc tb' vb' tc' vc');
        assumption).
  subst j. rewrite Hb in Hjb. rewrite Hc in Hjc.
  inversion Hjb; inversion Hjc; subst tb' vb' tc' vc'.
  destruct (calcTangents_neighbours (keys (curve it)) (i + 1) _ _ Hb Hc
              (between (curve it) (Fin t) (Fin tb, Fin vb) (Fin tc, Fin vc)
                       (m0 it) (m1 it)))
    as (a' & d' & Hln' & Hrn' & Hcalc).
  rewrite Hln in Hln'. rewrite Hrn in Hrn'.
  inversion Hln'; inversion Hrn'; subst a' d'.
  assert (Ea : a = (Fin ta, Fin va)).
  { replace (i + 1)%nat with (S i) in Hln by lia. cbn [left_neighbour] in Hln.
    apply key_at_Ok in Ha. congruence. }
  assert (Ed : d = (Fin td, Fin vd)).
  { unfold right_neighbour in Hrn.
    replace (i + 1 + 2)%nat with (i + 3)%nat in Hrn by lia.
    apply key_at_Ok in Hd. rewrite Hd in Hrn. congruence. }
  subst a d.
  rewrite Hcalc in Htan. cbn [curve between] in Htan. rewrite Hty in Htan.
  cbn [CurveType_eqb] in Htan. cbv zeta in Htan.
  cbn [ktime kvalue fst snd] in Htan.
  assert (Hlt' : (tb < tc)%Q) by lra.
  destruct (guarded_ratio tc tb tb ta) as (s1 & Hs1 & Es1); [lra|].
  destruct (guarded_ratio tc tb td tc) as (s2 & Hs2 & Es2); [lra|].
  rewrite Hs1, Hs2 in Htan. inversion Htan.
  exists (set_tangents
            (JS.half * (Fin vc - (Fin vb + (Fin va - Fin vb) * Fin s1)))
            (JS.half * (Fin vc + (Fin vd - Fin vc) * Fin s2 - Fin vb))
            (between (curve it) (Fin t) (Fin tb, Fin vb) (Fin tc, Fin vc)
                     (m0 it) (m1 it))).
  eexists. eexists.
  split; [rewrite Hreset; f_equal; symmetry; assumption|].
  split; [reflexivity|]. split; [reflexivity|].
  assert (R1 : ((tc - tb) / (tb - ta) == 1)%Q) by (rewrite Eab; field; lra).
  assert (R2 : ((tc - tb) / (td - tc) == 1)%Q) by (rewrite Ecd; field; lra).
  rewrite !Qred_correct, Es1, Es2, R1, R2.
  split; field.
Qed.

Lemma catmull_uniform_tangents_witness :
  exists it' q0 q1,
    reset (num 3) (blank (uniform_keys CURVE_CATMULL) 0) = Ok it' /\
    m0 it' = Fin q0 /\ m1 it' = Fin q1 /\
    (q0 == (3 - 1) / 2)%Q /\ (q1 == (9 - 5) / 2)%Q.
Proof.
  apply (catmull_uniform_tangents 3 0 1 2 5 4 3 6 9 0
           (blank (uniform_keys CURVE_CATMULL) 0)); try reflexivity.
  - repeat constructor.
  - discriminate.
Defined.
